(** * loader.py: frame loaders over an image directory or a video file

    A shallow embedding of [src/loader.py].  Python objects are records that
    are threaded explicitly through every method; the collaborators the module
    calls ([cv2], [os], [json]) act on an explicit [World]: the file system
    they read and the store of capture handles they mutate.  Python
    exceptions are the [Raise] results of a small state-and-error monad.
    A capture object that no variable refers to any more is destroyed, as
    CPython's reference counting does it. *)

From stdpp Require Import gmap strings list.
From Stdlib Require Import ZArith Lia Ascii.

Open Scope Z_scope.

(** ** Python results: a value or a raised exception *)

Inductive PyExn :=
  | KeyError (key : string)
  | FileNotFoundError (path : string)
  | NotADirectoryError (path : string)
  (* [open], [json.load] or the subscript failed on a path that exists but
     does not hold a JSON object of configuration records; which Python
     exception that is depends on what the path holds *)
  | NotAConfigStore (path : string).

Inductive Result (A : Type) :=
  | Ok (a : A)
  | Raise (e : PyExn).
Arguments Ok {A} a.
Arguments Raise {A} e.

(** A computation over a mutable world [W] that may raise. *)
Definition M (W A : Type) : Type := W → Result (A * W).

#[global] Instance M_ret {W} : MRet (M W) := λ A a w, Ok (a, w).
#[global] Instance M_bind {W} : MBind (M W) := λ A B f m w,
  match m w with
  | Ok (a, w') => f a w'
  | Raise e => Raise e
  end.

(** ** The configuration record ([config] in the source, one entry of the
    JSON store) *)

Record Config := {
  image_number_offset : Z;
  image_dataset : string;
  image_path_prefix : string;
  image_path_digits : Z;
  video_path : string;
}.

(** ** Python's [format(n, '0w')] for integers *)

Definition digit_char (d : Z) : ascii := ascii_of_nat (48 + Z.to_nat d).

(** Decimal digits of a non-negative integer, most significant first, put
    in front of [acc]. *)
Fixpoint decimal_go (fuel : nat) (n : Z) (acc : string) : string :=
  match fuel with
  | O => acc
  | S fuel' =>
      let acc' := String (digit_char (n mod 10)) acc in
      if n / 10 =? 0 then acc' else decimal_go fuel' (n / 10) acc'
  end.

(** [str(n)] for [0 <= n]: the binary length bounds the decimal length. *)
Definition decimal (n : Z) : string :=
  decimal_go (S (Z.to_nat (Z.log2 n))) n "".

Fixpoint zeros (k : nat) (s : string) : string :=
  match k with
  | O => s
  | S k' => String "0" (zeros k' s)
  end.

(** Left-pad with ['0'] up to a minimal width; longer strings are kept. *)
Definition zfill (w : nat) (s : string) : string :=
  zeros (w - String.length s) s.

(** The format specification [0w]: sign-aware zero padding to width [w]. *)
Definition format_0w (w : nat) (n : Z) : string :=
  if n <? 0 then String "-" (zfill (w - 1) (decimal (- n)))
  else zfill w (decimal n).

(** ** The collaborators: [cv2] and [os] over an explicit world

    OpenCV and the operating system are not part of the module; they are
    modelled by what their documentation says of the calls the module
    makes.  A video is a finite list of frames; an image is whatever the
    decoder returns, so the development is parametric in [Image]. *)

Module cv2.
Section cv2.
Context {Image : Type}.

(** A video file on disk: its frames in stream order and the frame count
    its container reports. *)
Record VideoFile := {
  vf_frames : list Image;
  vf_frame_count : Z;
}.

(** The state behind one [cv2.VideoCapture] object. *)
Record Capture := {
  cap_opened : bool;          (* what [isOpened()] answers *)
  cap_stream : list Image;    (* frames not decoded yet *)
  cap_frame_count : Z;        (* CAP_PROP_FRAME_COUNT *)
  cap_reads : nat;            (* calls of [read()], the decoder invocations *)
  cap_releases : nat;         (* calls of [release()] *)
  cap_destroyed : bool;       (* the Python object is gone: no reference was
                                 left and the interpreter destroyed it *)
}.

Record World := {
  w_configs : gmap string (gmap string Config);  (* JSON files *)
  w_dirs : gmap string (list string);            (* directories and entries *)
  w_images : gmap string Image;                  (* decodable still images *)
  w_videos : gmap string VideoFile;              (* openable videos *)
  w_files : gset string;                         (* the other regular files *)
  w_unopened_frame_count : Z;                    (* CAP_PROP_FRAME_COUNT of a
                                                    capture that is not opened:
                                                    0 or -1, by the version of
                                                    the library *)
  w_caps : list Capture;                         (* capture handles *)
  w_imread : list string;                        (* paths given to [imread] *)
}.

Definition set_caps (caps : list Capture) (w : World) : World :=
  {| w_configs := w_configs w; w_dirs := w_dirs w; w_images := w_images w;
     w_videos := w_videos w; w_files := w_files w;
     w_unopened_frame_count := w_unopened_frame_count w;
     w_caps := caps; w_imread := w_imread w |}.

Definition log_imread (path : string) (w : World) : World :=
  {| w_configs := w_configs w; w_dirs := w_dirs w; w_images := w_images w;
     w_videos := w_videos w; w_files := w_files w;
     w_unopened_frame_count := w_unopened_frame_count w;
     w_caps := w_caps w; w_imread := w_imread w ++ [path] |}.

(** Whether a path names a regular file of the world. *)
Definition is_file (w : World) (path : string) : bool :=
  bool_decide (is_Some (w_configs w !! path))
  || bool_decide (is_Some (w_images w !! path))
  || bool_decide (is_Some (w_videos w !! path))
  || bool_decide (path ∈ w_files w).

(** Whether a path names a directory of the world. *)
Definition is_directory (w : World) (path : string) : bool :=
  bool_decide (is_Some (w_dirs w !! path)).

(** [cv2.imread(path)]: the decoded image, or an empty result ([None] in
    Python) when the file is missing, unreadable or cannot be decoded;
    the call does not raise for such a file. *)
Definition imread (path : string) : M World (option Image) :=
  λ w, Ok (w_images w !! path, log_imread path w).

Definition open_capture (path : string) (w : World) : Capture :=
  match w_videos w !! path with
  | Some vf =>
      {| cap_opened := true; cap_stream := vf_frames vf;
         cap_frame_count := vf_frame_count vf;
         cap_reads := 0; cap_releases := 0; cap_destroyed := false |}
  | None =>
      {| cap_opened := false; cap_stream := [];
         cap_frame_count := w_unopened_frame_count w;
         cap_reads := 0; cap_releases := 0; cap_destroyed := false |}
  end.

(** [cv2.VideoCapture(path)]: a new handle, opened when the file can be. *)
Definition VideoCapture (path : string) : M World nat :=
  λ w, Ok (length (w_caps w), set_caps (w_caps w ++ [open_capture path w]) w).

Definition isOpened (h : nat) : M World bool :=
  λ w, Ok (from_option cap_opened false (w_caps w !! h), w).

Definition decode (c : Capture) : (bool * option Image) * Capture :=
  match cap_opened c, cap_stream c with
  | true, f :: rest =>
      ((true, Some f),
       {| cap_opened := true; cap_stream := rest;
          cap_frame_count := cap_frame_count c;
          cap_reads := S (cap_reads c); cap_releases := cap_releases c;
          cap_destroyed := cap_destroyed c |})
  | _, _ =>
      ((false, None),
       {| cap_opened := cap_opened c; cap_stream := cap_stream c;
          cap_frame_count := cap_frame_count c;
          cap_reads := S (cap_reads c); cap_releases := cap_releases c;
          cap_destroyed := cap_destroyed c |})
  end.

(** [cap.read()]: [(True, frame)] and the stream advances, or
    [(False, None)] when the capture is not opened or the stream has
    ended; every call counts as a decoder invocation. *)
Definition read (h : nat) : M World (bool * option Image) :=
  λ w, match w_caps w !! h with
       | Some c => let '(r, c') := decode c in
                   Ok (r, set_caps (<[h := c']> (w_caps w)) w)
       | None => Ok ((false, None), w)
       end.

(** [int(cv2.VideoCapture.get(cap, cv2.CAP_PROP_FRAME_COUNT))]: the
    property as the integer [int] makes of it; what a capture that could
    not be opened answers is the world's [w_unopened_frame_count]. *)
Definition get_frame_count (h : nat) : M World Z :=
  λ w, Ok (from_option cap_frame_count (w_unopened_frame_count w)
             (w_caps w !! h), w).

Definition released (c : Capture) : Capture :=
  {| cap_opened := false; cap_stream := cap_stream c;
     cap_frame_count := cap_frame_count c;
     cap_reads := cap_reads c; cap_releases := S (cap_releases c);
     cap_destroyed := cap_destroyed c |}.

(** A capture whose Python object was destroyed: the library closes it.
    The record stays in the store for the account of it; no reference
    reaches it any more. *)
Definition destroyed (c : Capture) : Capture :=
  {| cap_opened := false; cap_stream := cap_stream c;
     cap_frame_count := cap_frame_count c;
     cap_reads := cap_reads c; cap_releases := cap_releases c;
     cap_destroyed := true |}.

Definition destroyed_at (h : nat) (w : World) : World :=
  match w_caps w !! h with
  | Some c => set_caps (<[h := destroyed c]> (w_caps w)) w
  | None => w
  end.

(** The last reference to a capture object goes away: CPython's reference
    counting destroys the object at once. *)
Definition destroy (h : nat) : M World () :=
  λ w, Ok ((), destroyed_at h w).

(** [cap.release()]. *)
Definition release (h : nat) : M World () :=
  λ w, match w_caps w !! h with
       | Some c => Ok ((), set_caps (<[h := released c]> (w_caps w)) w)
       | None => Ok ((), w)
       end.
End cv2.
Arguments VideoFile : clear implicits.
Arguments Capture : clear implicits.
Arguments World : clear implicits.
End cv2.

Module os.
Section os.
Context {Image : Type}.

(** [os.listdir(path)]; raises [NotADirectoryError] on a regular file
    and [FileNotFoundError] when nothing has the name. *)
Definition listdir (path : string) : M (cv2.World Image) (list string) :=
  λ w, match cv2.w_dirs w !! path with
       | Some entries => Ok (entries, w)
       | None =>
           if cv2.is_file w path then Raise (NotADirectoryError path)
           else Raise (FileNotFoundError path)
       end.

(** [os.scandir(path)]: the same entries, as an iterator. *)
Definition scandir (path : string) : M (cv2.World Image) (list string) :=
  listdir path.
End os.
End os.

(** [any(iterable)] over directory entries, which are all truthy. *)
Definition any {A} (entries : list A) : bool :=
  match entries with
  | [] => false
  | _ :: _ => true
  end.

(** [json.load(open(config_path))[video_identifier]]. *)
Definition load_config {Image} (config_path video_identifier : string)
  : M (cv2.World Image) Config :=
  λ w, match cv2.w_configs w !! config_path with
       | None =>
           if cv2.is_directory w config_path || cv2.is_file w config_path
           then Raise (NotAConfigStore config_path)
           else Raise (FileNotFoundError config_path)
       | Some store =>
           match store !! video_identifier with
           | None => Raise (KeyError video_identifier)
           | Some config => Ok (config, w)
           end
       end.

(** ** class ImageLoader *)

Module ImageLoader.
Section ImageLoader.
Context {Image : Type}.

Record t := {
  _offset : Z;
  _index : Z;
  _image_dataset : string;
  _prefix : string;
  _digits : Z;
  _image_number : Z;
}.

Definition with_index (index : Z) (self : t) : t :=
  {| _offset := _offset self; _index := index;
     _image_dataset := _image_dataset self; _prefix := _prefix self;
     _digits := _digits self; _image_number := _image_number self |}.

Definition init (config : Config) : M (cv2.World Image) t :=
  entries ← os.listdir (image_dataset config);
  mret {| _offset := image_number_offset config; _index := 0;
          _image_dataset := image_dataset config;
          _prefix := image_path_prefix config;
          _digits := image_path_digits config;
          _image_number := Z.of_nat (length entries) |}.

Definition has_images (self : t) : bool :=
  bool_decide (_index self < _image_number self).

Definition _path (self : t) (i : Z) : string :=
  let i := i + _offset self in
  if bool_decide (_digits self = 5) then
    _image_dataset self +:+ "/" +:+ _prefix self +:+ format_0w 5 i +:+ ".jpg"
  else if bool_decide (_digits self = 3) then
    _image_dataset self +:+ "/" +:+ _prefix self +:+ format_0w 3 i +:+ ".jpg"
  else
    _image_dataset self +:+ "/" +:+ _prefix self +:+ format_0w 4 i +:+ ".jpg".

Definition set_index (index : Z) (self : t) : t := with_index index self.

Definition read (self : t) : M (cv2.World Image) (option Image * t) :=
  let self := with_index (_index self + 1) self in
  image ← cv2.imread (_path self (_index self));
  mret (image, self).

Definition end_ (self : t) : M (cv2.World Image) (() * t) :=
  mret ((), self).
End ImageLoader.
End ImageLoader.

(** ** class VideoLoader *)

Module VideoLoader.
Section VideoLoader.
Context {Image : Type}.

Record t := {
  _offset : Z;
  _index : Z;
  _video_path : string;
  _cap : nat;                 (* handle of the sequential-read capture *)
  _image : option Image;      (* current image *)
  _image_read : bool;         (* whether the current image was read *)
  total_frames : Z;
}.

Definition with_index (index : Z) (self : t) : t :=
  {| _offset := _offset self; _index := index;
     _video_path := _video_path self; _cap := _cap self;
     _image := _image self; _image_read := _image_read self;
     total_frames := total_frames self |}.

Definition with_image (image : option Image) (self : t) : t :=
  {| _offset := _offset self; _index := _index self;
     _video_path := _video_path self; _cap := _cap self;
     _image := image; _image_read := _image_read self;
     total_frames := total_frames self |}.

Definition with_image_read (b : bool) (self : t) : t :=
  {| _offset := _offset self; _index := _index self;
     _video_path := _video_path self; _cap := _cap self;
     _image := _image self; _image_read := b;
     total_frames := total_frames self |}.

Definition has_images (self : t) : M (cv2.World Image) (bool * t) :=
  opened ← cv2.isOpened (_cap self);
  if negb opened then mret (false, self)
  else
    '(ret, image) ← cv2.read (_cap self);
    mret (ret, with_image_read false (with_image image self)).

Definition read (self : t) : M (cv2.World Image) (option Image * t) :=
  let self := with_index (_index self + 1) self in
  self ← (if _image_read self then
            '(_, image) ← cv2.read (_cap self);
            mret (with_image image self)
          else mret self);
  let self := with_image_read true self in
  mret (_image self, self).

Definition end_ (self : t) : M (cv2.World Image) (() * t) :=
  cv2.release (_cap self);; mret ((), self).

(** [for _ in range(n): if self.has_images(): self.read()] *)
Fixpoint skip (n : nat) (self : t) : M (cv2.World Image) t :=
  match n with
  | O => mret self
  | S n' =>
      '(more, self) ← has_images self;
      self ← (if more : bool then '(_, self) ← read self; mret self
              else mret self);
      skip n' self
  end.

Definition init (config : Config) : M (cv2.World Image) t :=
  cap_seq ← cv2.VideoCapture (video_path config);
  (* Get number of frames *)
  cap ← cv2.VideoCapture (video_path config);
  count ← cv2.get_frame_count cap;
  (* Skip offset *)
  self ← skip (Z.to_nat (image_number_offset config + 1))
              {| _offset := image_number_offset config; _index := 0;
                 _video_path := video_path config; _cap := cap_seq;
                 _image := None; _image_read := false;
                 total_frames := count + 1 |};
  (* the local [cap] holds the only reference to the second capture: it
     goes away when [__init__] returns *)
  cv2.destroy cap;;
  mret self.
End VideoLoader.
End VideoLoader.

(** ** get_loader *)

Inductive AnyLoader {Image : Type} :=
  | of_ImageLoader (loader : ImageLoader.t)
  | of_VideoLoader (loader : @VideoLoader.t Image).
Arguments AnyLoader : clear implicits.

Definition get_loader {Image} (config_path video_identifier : string)
  : M (cv2.World Image) (AnyLoader Image) :=
  config ← load_config config_path video_identifier;
  let image_folder_path := image_dataset config in
  entries ← os.scandir image_folder_path;
  if any entries then
    loader ← ImageLoader.init config; mret (of_ImageLoader loader)
  else
    loader ← VideoLoader.init config; mret (of_VideoLoader loader).

(** ** The abstract class Loader and the ways a caller drives it *)

Class Loader (Image T : Type) := {
  index : T → Z;
  has_images : T → M (cv2.World Image) (bool * T);
  read : T → M (cv2.World Image) (option Image * T);
  end_ : T → M (cv2.World Image) (() * T);
}.

#[global] Instance ImageLoader_Loader {Image} : Loader Image ImageLoader.t := {|
  index := ImageLoader._index;
  has_images self := mret (ImageLoader.has_images self, self);
  read := ImageLoader.read;
  end_ := ImageLoader.end_;
|}.

#[global] Instance VideoLoader_Loader {Image}
  : Loader Image (@VideoLoader.t Image) := {|
  index := VideoLoader._index;
  has_images := VideoLoader.has_images;
  read := VideoLoader.read;
  end_ := VideoLoader.end_;
|}.

Inductive Call := HasImages | Read | End.

#[global] Instance Call_eq_dec : EqDecision Call.
Proof. solve_decision. Defined.

Section Driving.
Context {Image T : Type} `{!Loader Image T}.

Definition call (c : Call) (self : T) : M (cv2.World Image) T :=
  match c with
  | HasImages => '(_, self) ← has_images self; mret self
  | Read => '(_, self) ← read self; mret self
  | End => '(_, self) ← end_ self; mret self
  end.

(** Any sequence of method calls on one loader. *)
Fixpoint calls (cs : list Call) (self : T) : M (cv2.World Image) T :=
  match cs with
  | [] => mret self
  | c :: cs' => self ← call c self; calls cs' self
  end.

(** [n] times [read()] alone; the values returned, in order. *)
Fixpoint reads (n : nat) (self : T)
  : M (cv2.World Image) (list (option Image) * T) :=
  match n with
  | O => mret ([], self)
  | S n' =>
      '(image, self) ← read self;
      '(images, self) ← reads n' self;
      mret (image :: images, self)
  end.

(** [n] times [has_images()] then [read()]; the answers of [has_images]
    and the values returned by [read], in order. *)
Fixpoint probed_reads (n : nat) (self : T)
  : M (cv2.World Image) (list bool * list (option Image) * T) :=
  match n with
  | O => mret ([], [], self)
  | S n' =>
      '(more, self) ← has_images self;
      '(image, self) ← read self;
      '(answers, images, self) ← probed_reads n' self;
      mret (more :: answers, image :: images, self)
  end.

(** [while self.has_images(): self.read()], at most [fuel] iterations;
    the flag tells whether the loop left by its condition. *)
Fixpoint read_loop (fuel : nat) (self : T)
  : M (cv2.World Image) (bool * list (option Image) * T) :=
  match fuel with
  | O => mret (false, [], self)
  | S fuel' =>
      '(more, self) ← has_images self;
      if more : bool then
        '(image, self) ← read self;
        '(finished, images, self) ← read_loop fuel' self;
        mret (finished, image :: images, self)
      else mret (true, [], self)
  end.
End Driving.

(** ** Definitions used to state the properties *)

(** The width the path formatting selects for a configured digit count. *)
Definition pad_width (digits : Z) : nat :=
  if bool_decide (digits = 5) then 5%nat
  else if bool_decide (digits = 3) then 3%nat
  else 4%nat.

(** A number written with exactly [w] decimal digit positions, put in
    front of [acc]. *)
Fixpoint fixed_digits (w : nat) (n : Z) (acc : string) : string :=
  match w with
  | O => acc
  | S w' => fixed_digits w' (n / 10) (String (digit_char (n mod 10)) acc)
  end.

(** The decimal value of a string of digits. *)
Fixpoint digits_value (s : string) (acc : Z) : option Z :=
  match s with
  | EmptyString => Some acc
  | String c s' =>
      let d := Z.of_nat (nat_of_ascii c) - 48 in
      if bool_decide (0 ≤ d ≤ 9) then digits_value s' (10 * acc + d) else None
  end.

Section Observations.
Context {Image : Type}.

(** The frames of the video behind a path; none when it cannot be
    opened. *)
Definition stream_of (w : cv2.World Image) (path : string) : list Image :=
  from_option cv2.vf_frames [] (cv2.w_videos w !! path).

(** The frame count the decoder reports for the video behind a path;
    for a video that cannot be opened, what an unopened capture
    answers. *)
Definition reported_frame_count (w : cv2.World Image) (path : string) : Z :=
  from_option cv2.vf_frame_count (cv2.w_unopened_frame_count w)
    (cv2.w_videos w !! path).

(** Decoder invocations made so far on a capture handle. *)
Definition decodes (w : cv2.World Image) (h : nat) : nat :=
  from_option cv2.cap_reads 0%nat (cv2.w_caps w !! h).

(** Releases made so far of a capture handle. *)
Definition releases (w : cv2.World Image) (h : nat) : nat :=
  from_option cv2.cap_releases 0%nat (cv2.w_caps w !! h).

(** Frames left in the stream of a capture handle. *)
Definition remaining (w : cv2.World Image) (h : nat) : list Image :=
  from_option cv2.cap_stream [] (cv2.w_caps w !! h).

(** [n] consecutive stream positions from [start], as [read()] values:
    the frame, or [None] past the end. *)
Definition frames_from (frames : list Image) (start n : nat)
  : list (option Image) :=
  (λ k, frames !! k) <$> seq start n.

(** The path of the file numbered [k], as the loader formats it. *)
Definition numbered_path (self : ImageLoader.t) (k : Z) : string :=
  ImageLoader._image_dataset self +:+ "/" +:+ ImageLoader._prefix self
  +:+ format_0w (pad_width (ImageLoader._digits self)) k +:+ ".jpg".
End Observations.

(** ** States of a video loader and its sequential capture *)

Section VideoStates.
Context {Image : Type}.

(** An opened, never released capture over [frames] that has decoded
    [d] times and stands before stream position [p] (from 0). *)
Definition cap_at (frames : list Image) (count : Z) (p d : nat)
  : cv2.Capture Image :=
  {| cv2.cap_opened := true; cv2.cap_stream := drop p frames;
     cv2.cap_frame_count := count; cv2.cap_reads := d;
     cv2.cap_releases := 0; cv2.cap_destroyed := false |}.

(** The loader's sequential capture is in the state [cap_at]. *)
Definition at_position (frames : list Image) (count : Z) (p d : nat)
    (self : @VideoLoader.t Image) (w : cv2.World Image) : Prop :=
  cv2.w_caps w !! VideoLoader._cap self = Some (cap_at frames count p d).

(** A capture that has no frame to give: not opened, or at its end. *)
Definition dry (c : cv2.Capture Image) : Prop :=
  cv2.cap_opened c = false ∨ cv2.cap_stream c = [].

(** No frame is obtainable: the capture is dry and nothing is
    buffered. *)
Definition no_frame (self : @VideoLoader.t Image) (w : cv2.World Image) : Prop :=
  VideoLoader._image self = None
  ∧ ∃ c, cv2.w_caps w !! VideoLoader._cap self = Some c ∧ dry c.

(** What a method call on the loader leaves alone: the loader's handle
    and [total_frames], and every other capture handle. *)
Definition framed (self : @VideoLoader.t Image) (w : cv2.World Image)
    (self' : @VideoLoader.t Image) (w' : cv2.World Image) : Prop :=
  VideoLoader._cap self' = VideoLoader._cap self
  ∧ VideoLoader.total_frames self' = VideoLoader.total_frames self
  ∧ length (cv2.w_caps w') = length (cv2.w_caps w)
  ∧ ∀ h, h ≠ VideoLoader._cap self → cv2.w_caps w' !! h = cv2.w_caps w !! h.

(** The loader object as [__init__] has it before the skip loop. *)
Definition fresh (config : Config) (w : cv2.World Image)
  : @VideoLoader.t Image :=
  {| VideoLoader._offset := image_number_offset config;
     VideoLoader._index := 0;
     VideoLoader._video_path := video_path config;
     VideoLoader._cap := length (cv2.w_caps w);
     VideoLoader._image := None; VideoLoader._image_read := false;
     VideoLoader.total_frames :=
       reported_frame_count w (video_path config) + 1 |}.

(** The world once [__init__] has opened its two captures. *)
Definition opened_twice (config : Config) (w : cv2.World Image)
  : cv2.World Image :=
  cv2.set_caps
    (cv2.w_caps w ++ [cv2.open_capture (video_path config) w;
                      cv2.open_capture (video_path config) w]) w.
End VideoStates.

(** ** Concrete worlds for the examples; images are named by numbers *)

Definition empty_world : cv2.World nat :=
  {| cv2.w_configs := ∅; cv2.w_dirs := ∅; cv2.w_images := ∅;
     cv2.w_videos := ∅; cv2.w_files := ∅; cv2.w_unopened_frame_count := 0;
     cv2.w_caps := []; cv2.w_imread := [] |}.

Definition example_config (offset digits : Z) : Config :=
  {| image_number_offset := offset; image_dataset := "frames";
     image_path_prefix := "img_"; image_path_digits := digits;
     video_path := "river.mp4" |}.

(** A world with the video [river.mp4] of the given frames, an image
    directory with the given entries, and a configuration file. *)
Definition example_world (offset digits : Z) (frames : list nat)
    (entries : list string) (images : gmap string nat) : cv2.World nat :=
  {| cv2.w_configs :=
       {[ "station.json" := {[ "v1" := example_config offset digits ]} ]};
     cv2.w_dirs := {[ "frames" := entries ]};
     cv2.w_images := images;
     cv2.w_videos :=
       {[ "river.mp4" := {| cv2.vf_frames := frames;
                            cv2.vf_frame_count := Z.of_nat (length frames) |} ]};
     cv2.w_files := ∅; cv2.w_unopened_frame_count := 0;
     cv2.w_caps := []; cv2.w_imread := [] |}.

Definition example_image_loader (offset digits : Z) : ImageLoader.t :=
  {| ImageLoader._offset := offset; ImageLoader._index := 0;
     ImageLoader._image_dataset := "frames"; ImageLoader._prefix := "img_";
     ImageLoader._digits := digits; ImageLoader._image_number := 2 |}.

(** ** Further observations on call sequences and paths *)

(** The calls of [read()] in a sequence of calls. *)
Definition count_reads (cs : list Call) : nat :=
  length (filter (λ c, c = Read) cs).

(** The integer a formatted number denotes: a string of decimal digits,
    or ['-'] followed by one. *)
Definition parse_int (s : string) : option Z :=
  match digits_value s 0 with
  | Some v => Some v
  | None =>
      match s with
      | String c s' =>
          if Ascii.eqb c "-" then Z.opp <$> digits_value s' 0 else None
      | EmptyString => None
      end
  end.

Section FurtherStates.
Context {Image : Type}.

(** The world after [imread] was given some more paths. *)
Definition log_imreads (paths : list string) (w : cv2.World Image)
  : cv2.World Image :=
  {| cv2.w_configs := cv2.w_configs w; cv2.w_dirs := cv2.w_dirs w;
     cv2.w_images := cv2.w_images w; cv2.w_videos := cv2.w_videos w;
     cv2.w_files := cv2.w_files w;
     cv2.w_unopened_frame_count := cv2.w_unopened_frame_count w;
     cv2.w_caps := cv2.w_caps w; cv2.w_imread := cv2.w_imread w ++ paths |}.

(** Nothing in the world has the name: neither a directory nor a regular
    file. *)
Definition absent (w : cv2.World Image) (path : string) : Prop :=
  cv2.is_directory w path || cv2.is_file w path = false.

(** The loader's sequential capture is not opened (the video could not
    be opened, or the capture was released) and holds [left] as its
    undecoded frames. *)
Definition closed (left : list Image) (self : @VideoLoader.t Image)
    (w : cv2.World Image) : Prop :=
  ∃ c, cv2.w_caps w !! VideoLoader._cap self = Some c
       ∧ cv2.cap_opened c = false ∧ cv2.cap_stream c = left.
End FurtherStates.

(** A video loader over handle 0, with nothing buffered. *)
Definition example_video_loader : @VideoLoader.t nat :=
  {| VideoLoader._offset := 0; VideoLoader._index := 0;
     VideoLoader._video_path := "river.mp4"; VideoLoader._cap := 0;
     VideoLoader._image := None; VideoLoader._image_read := true;
     VideoLoader.total_frames := 4 |}.

(** A world with a configuration file but neither the image directory
    nor the video it names. *)
Definition example_world_no_directory : cv2.World nat :=
  {| cv2.w_configs := {[ "station.json" := {[ "v1" := example_config 0 4 ]} ]};
     cv2.w_dirs := ∅; cv2.w_images := ∅; cv2.w_videos := ∅;
     cv2.w_files := ∅; cv2.w_unopened_frame_count := 0;
     cv2.w_caps := []; cv2.w_imread := [] |}.

(** A configuration whose image directory is given the name of the
    video, and a world holding that video and no directory. *)
Definition example_config_dataset_is_video : Config :=
  {| image_number_offset := 0; image_dataset := "river.mp4";
     image_path_prefix := "img_"; image_path_digits := 4;
     video_path := "river.mp4" |}.

Definition example_world_dataset_is_video : cv2.World nat :=
  {| cv2.w_configs :=
       {[ "station.json" := {[ "v1" := example_config_dataset_is_video ]} ]};
     cv2.w_dirs := ∅; cv2.w_images := ∅;
     cv2.w_videos :=
       {[ "river.mp4" := {| cv2.vf_frames := [10%nat];
                            cv2.vf_frame_count := 1 |} ]};
     cv2.w_files := ∅; cv2.w_unopened_frame_count := 0;
     cv2.w_caps := []; cv2.w_imread := [] |}.

(** A world whose only capture is opened over three frames, none decoded. *)
Definition example_capture_world : cv2.World nat :=
  cv2.set_caps [cap_at [10; 20; 30]%nat 3 0 0] empty_world.

(** * Properties *)

(** ** Zero-padded decimal formatting *)

Section Formatting.

Lemma zeros_snoc k s : zeros k (String "0" s) = String "0" (zeros k s).
Proof. induction k as [|k IH]; simpl; [done | by rewrite IH]. Qed.

Lemma zeros_length k s : String.length (zeros k s) = (k + String.length s)%nat.
Proof. induction k as [|k IH]; simpl; [done | by rewrite IH]. Qed.

Lemma fixed_digits_length w : ∀ n acc,
  String.length (fixed_digits w n acc) = (w + String.length acc)%nat.
Proof.
  induction w as [|w IH]; intros n acc; simpl; [done |].
  rewrite IH. simpl. lia.
Qed.

Lemma fixed_digits_zero w : ∀ acc, fixed_digits w 0 acc = zeros w acc.
Proof.
  induction w as [|w IH]; intros acc; simpl; [done |].
  change (digit_char (0 mod 10)) with "0"%char.
  change (0 / 10) with 0. by rewrite IH, zeros_snoc.
Qed.

(** A number below [10^k] written on [w >= k] positions starts with
    [w - k] zeros. *)
Lemma fixed_digits_pad k : ∀ w n acc,
  0 ≤ n < 10 ^ Z.of_nat k → (k ≤ w)%nat →
  fixed_digits w n acc = zeros (w - k) (fixed_digits k n acc).
Proof.
  induction k as [|k IH]; intros w n acc Hn Hk.
  - assert (n = 0) as -> by (simpl in Hn; lia).
    rewrite Nat.sub_0_r. apply fixed_digits_zero.
  - destruct w as [|w]; [lia |]. simpl.
    apply IH; [| lia].
    rewrite Nat2Z.inj_succ, Z.pow_succ_r in Hn by lia.
    split; [apply Z.div_pos; lia |].
    apply Z.div_lt_upper_bound; lia.
Qed.

(** The digit loop writes the number on its minimal number of
    positions. *)
Lemma decimal_go_fixed fuel : ∀ n acc,
  0 ≤ n < 2 ^ Z.of_nat (S fuel) →
  ∃ k : nat, (1 ≤ k)%nat ∧ (k = 1%nat ∨ 10 ^ Z.of_nat (k - 1) ≤ n) ∧
             n < 10 ^ Z.of_nat k ∧
             decimal_go (S fuel) n acc = fixed_digits k n acc.
Proof.
  induction fuel as [|fuel IH]; intros n acc Hn.
  - exists 1%nat. change (2 ^ Z.of_nat 1) with 2 in Hn.
    simpl. rewrite Z.div_small by lia. simpl.
    split_and!; [lia | left; lia | lia | done].
  - rewrite Nat2Z.inj_succ, Z.pow_succ_r in Hn by lia.
    change (decimal_go (S (S fuel)) n acc) with
      (if n / 10 =? 0 then String (digit_char (n mod 10)) acc
       else decimal_go (S fuel) (n / 10) (String (digit_char (n mod 10)) acc)).
    destruct (Z.eqb_spec (n / 10) 0) as [Hq|Hq].
    + exists 1%nat. simpl.
      assert (n < 10) by (pose proof (Z.div_mod n 10); pose proof (Z.mod_pos_bound n 10); lia).
      split_and!; [lia | left; lia | lia | done].
    + assert (0 ≤ n / 10) by (apply Z.div_pos; lia).
      destruct (IH (n / 10) (String (digit_char (n mod 10)) acc))
        as (k & Hk1 & Hlow & Hup & Heq).
      { split; [done |]. apply Z.div_lt_upper_bound; lia. }
      exists (S k). rewrite Heq. simpl fixed_digits.
      pose proof (Z.div_mod n 10 ltac:(lia)) as Hdm.
      pose proof (Z.mod_pos_bound n 10 ltac:(lia)) as Hm.
      split_and!; [lia | right | |].
      * replace (S k - 1)%nat with k by lia.
        destruct Hlow as [-> | Hlow]; [change (10 ^ Z.of_nat 1) with 10; lia |].
        replace (Z.of_nat k) with (Z.succ (Z.of_nat (k - 1))) by lia.
        rewrite Z.pow_succ_r by lia. lia.
      * rewrite Nat2Z.inj_succ, Z.pow_succ_r by lia. lia.
      * done.
Qed.

Lemma decimal_fixed n :
  0 ≤ n →
  ∃ k : nat, (1 ≤ k)%nat ∧ (k = 1%nat ∨ 10 ^ Z.of_nat (k - 1) ≤ n) ∧
             n < 10 ^ Z.of_nat k ∧ decimal n = fixed_digits k n "".
Proof.
  intros Hn. unfold decimal. apply decimal_go_fixed.
  split; [done |].
  rewrite Nat2Z.inj_succ, Z2Nat.id by apply Z.log2_nonneg.
  destruct (decide (n = 0)) as [-> | ?]; [done |].
  apply Z.log2_spec. lia.
Qed.

(** For a number that fits the width, the format is the number written
    on exactly [w] positions. *)
Lemma format_0w_fits (w : nat) n :
  (1 ≤ w)%nat → 0 ≤ n < 10 ^ Z.of_nat w →
  format_0w w n = fixed_digits w n "".
Proof.
  intros Hw [Hn Hup]. unfold format_0w.
  destruct (Z.ltb_spec n 0) as [? | _]; [lia |].
  destruct (decimal_fixed n Hn) as (k & Hk1 & Hlow & Hk & ->).
  unfold zfill. rewrite fixed_digits_length. simpl String.length.
  rewrite Nat.add_0_r. symmetry. apply fixed_digits_pad; [lia |].
  destruct Hlow as [-> | Hlow]; [done |].
  destruct (decide (k ≤ w)%nat) as [? | Hgt]; [done |].
  assert (10 ^ Z.of_nat w ≤ 10 ^ Z.of_nat (k - 1)) by (apply Z.pow_le_mono_r; lia).
  lia.
Qed.

Lemma digit_char_value d :
  0 ≤ d ≤ 9 → Z.of_nat (nat_of_ascii (digit_char d)) - 48 = d.
Proof.
  intros Hd. unfold digit_char.
  rewrite nat_ascii_embedding by lia. lia.
Qed.

Lemma digits_value_cons c s a :
  digits_value (String c s) a =
  let d := Z.of_nat (nat_of_ascii c) - 48 in
  if bool_decide (0 ≤ d ≤ 9) then digits_value s (10 * a + d) else None.
Proof. reflexivity. Qed.

(** The positions written by [fixed_digits] are decimal digits and
    denote the number modulo [10^w]. *)
Lemma digits_value_fixed w : ∀ n acc a,
  digits_value (fixed_digits w n acc) a =
  digits_value acc (a * 10 ^ Z.of_nat w + n mod 10 ^ Z.of_nat w).
Proof.
  induction w as [|w IH]; intros n acc a.
  - simpl. rewrite Z.mod_1_r. f_equal. lia.
  - simpl fixed_digits. rewrite IH, digits_value_cons. cbv zeta.
    pose proof (Z.mod_pos_bound n 10 ltac:(lia)) as Hm.
    rewrite digit_char_value by lia.
    rewrite bool_decide_true by lia. f_equal.
    rewrite Nat2Z.inj_succ, Z.pow_succ_r by lia.
    rewrite (Z.rem_mul_r n 10 (10 ^ Z.of_nat w)) by lia. lia.
Qed.

Lemma format_0w_value (w : nat) n :
  (1 ≤ w)%nat → 0 ≤ n < 10 ^ Z.of_nat w →
  String.length (format_0w w n) = w ∧ digits_value (format_0w w n) 0 = Some n.
Proof.
  intros Hw Hn. rewrite format_0w_fits by done. split.
  - rewrite fixed_digits_length. simpl. lia.
  - rewrite digits_value_fixed. simpl. f_equal.
    rewrite Z.mod_small; lia.
Qed.

Lemma length_append (s t : string) :
  String.length (s +:+ t) = (String.length s + String.length t)%nat.
Proof. induction s as [|c s IH]; simpl; [done | by rewrite IH]. Qed.

Lemma zfill_length w s :
  String.length (zfill w s) = (w `max` String.length s)%nat.
Proof. unfold zfill. rewrite zeros_length. lia. Qed.

(** The format never writes fewer than [w] characters. *)
Lemma format_0w_min_width (w : nat) n :
  (w ≤ String.length (format_0w w n))%nat.
Proof.
  unfold format_0w. destruct (n <? 0).
  - change (String.length (String "-" ?s)) with (S (String.length s)).
    rewrite zfill_length. lia.
  - rewrite zfill_length. lia.
Qed.

Lemma digits_value_zeros k s : digits_value (zeros k s) 0 = digits_value s 0.
Proof.
  induction k as [|k IH]; [done |].
  simpl zeros. rewrite digits_value_cons. cbv zeta.
  change (Z.of_nat (nat_of_ascii "0") - 48) with 0.
  rewrite bool_decide_true by lia. exact IH.
Qed.

Lemma digits_value_decimal n : 0 ≤ n → digits_value (decimal n) 0 = Some n.
Proof.
  intros Hn. destruct (decimal_fixed n Hn) as (k & _ & _ & Hk & ->).
  rewrite digits_value_fixed. simpl. f_equal. rewrite Z.mod_small; lia.
Qed.

Lemma parse_int_format (w : nat) n : parse_int (format_0w w n) = Some n.
Proof.
  unfold format_0w, parse_int. destruct (Z.ltb_spec n 0) as [Hneg | Hpos].
  - rewrite digits_value_cons. cbv zeta.
    change (Z.of_nat (nat_of_ascii "-") - 48) with (-3).
    rewrite bool_decide_false by lia.
    change (Ascii.eqb "-" "-") with true. cbv iota.
    unfold zfill. rewrite digits_value_zeros, digits_value_decimal by lia.
    simpl. f_equal. lia.
  - unfold zfill. by rewrite digits_value_zeros, digits_value_decimal.
Qed.

(** A number with more digits than the width is written in full. *)
Lemma format_0w_wide (w : nat) n :
  10 ^ Z.of_nat w ≤ n →
  format_0w w n = decimal n ∧ (w < String.length (decimal n))%nat.
Proof.
  intros Hwide.
  assert (0 < 10 ^ Z.of_nat w) by (apply Z.pow_pos_nonneg; lia).
  destruct (decimal_fixed n ltac:(lia)) as (k & Hk1 & _ & Hup & Hdec).
  assert (w < k)%nat as Hwk.
  { destruct (decide (w < k)%nat) as [? | Hle]; [done |].
    assert (10 ^ Z.of_nat k ≤ 10 ^ Z.of_nat w) by (apply Z.pow_le_mono_r; lia).
    lia. }
  assert (String.length (decimal n) = k) as Hlen
    by (rewrite Hdec, fixed_digits_length; simpl; lia).
  split; [| lia].
  unfold format_0w. destruct (Z.ltb_spec n 0) as [? | _]; [lia |].
  unfold zfill. rewrite Hlen.
  by replace (w - k)%nat with 0%nat by lia.
Qed.

Lemma pad_width_pos digits : (1 ≤ pad_width digits)%nat.
Proof. unfold pad_width. repeat case_bool_decide; lia. Qed.

End Formatting.

(** Evaluate the monadic glue of a computation applied to a world. *)
Ltac run := unfold mbind, M_bind, mret, M_ret; simpl.

Lemma bind_ok {W A B} (m : M W A) (f : A → M W B) w a w' :
  m w = Ok (a, w') → (m ≫= f) w = f a w'.
Proof. intros H. unfold mbind, M_bind. by rewrite H. Qed.

(** Run the first computation of a bind whose outcome [tac] establishes. *)
Ltac bind_by tac := erewrite bind_ok by tac; cbv beta iota.

(** ** ImageLoader *)

Section ImageLoaderFacts.
Context {Image : Type}.
Implicit Types (self : ImageLoader.t) (w : cv2.World Image).

Lemma path_numbered self i :
  ImageLoader._path self i = numbered_path self (i + ImageLoader._offset self).
Proof.
  unfold ImageLoader._path, numbered_path, pad_width.
  repeat case_bool_decide; reflexivity.
Qed.

Lemma read_unfold self w :
  ImageLoader.read self w =
  Ok (cv2.w_images w !! ImageLoader._path self (ImageLoader._index self + 1),
      ImageLoader.with_index (ImageLoader._index self + 1) self,
      cv2.log_imread (ImageLoader._path self (ImageLoader._index self + 1)) w).
Proof. reflexivity. Qed.

(** What [k] successive reads do, from any cursor position. *)
Lemma reads_unfold (k : nat) : ∀ self w,
  ∃ w',
    reads k self w =
      Ok ((λ j : nat, cv2.w_images w
                        !! ImageLoader._path self (ImageLoader._index self + Z.of_nat j))
            <$> seq 1 k,
          ImageLoader.with_index (ImageLoader._index self + Z.of_nat k) self, w')
    ∧ cv2.w_imread w' =
        cv2.w_imread w ++
        ((λ j : nat, ImageLoader._path self (ImageLoader._index self + Z.of_nat j))
           <$> seq 1 k)
    ∧ cv2.w_images w' = cv2.w_images w.
Proof.
  induction k as [|k IH]; intros self w.
  - exists w. simpl. run. rewrite Z.add_0_r, app_nil_r.
    split_and!; [| done | done]. by destruct self.
  - destruct (IH (ImageLoader.with_index (ImageLoader._index self + 1) self)
                (cv2.log_imread (ImageLoader._path self (ImageLoader._index self + 1)) w))
      as (w' & Hrun & Hlog & Himg).
    exists w'. simpl reads. unfold mbind, M_bind at 1.
    change (read self w) with (ImageLoader.read self w).
    rewrite read_unfold. unfold mbind, M_bind at 1. rewrite Hrun.
    simpl ImageLoader._index in *.
    assert (∀ j : nat,
      ImageLoader._index self + 1 + Z.of_nat j = ImageLoader._index self + Z.of_nat (S j))
      as Hshift by (intros; lia).
    split_and!.
    + unfold mret, M_ret. do 2 f_equal. f_equal.
      * change (seq 1 (S k)) with (1%nat :: seq 2 k).
        rewrite <- (fmap_S_seq 1 k), fmap_cons, <- list_fmap_compose.
        f_equal. apply list_fmap_ext. intros _ j _. simpl.
        by rewrite Hshift.
      * replace (ImageLoader._index self + Z.of_nat (S k))
          with (ImageLoader._index self + 1 + Z.of_nat k) by lia.
        reflexivity.
    + rewrite Hlog. simpl cv2.w_imread. rewrite <- app_assoc.
      change (seq 1 (S k)) with (1%nat :: seq 2 k).
      rewrite <- (fmap_S_seq 1 k), fmap_cons, <- list_fmap_compose.
      simpl. do 2 f_equal. apply list_fmap_ext. intros _ j _. simpl.
      by rewrite Hshift.
    + by rewrite Himg.
Qed.

(** The loop [while has_images(): read()] is the same as reading as many
    times as entries are left, and it leaves by its condition. *)
Lemma read_loop_unfold (fuel : nat) : ∀ self w,
  (Z.to_nat (ImageLoader._image_number self - ImageLoader._index self) < fuel)%nat →
  ∃ images self' w',
    read_loop fuel self w = Ok (true, images, self', w')
    ∧ reads (Z.to_nat (ImageLoader._image_number self - ImageLoader._index self))
            self w = Ok (images, self', w').
Proof.
  induction fuel as [|fuel IH]; intros self w Hfuel; [lia |].
  simpl read_loop.
  bind_by ltac:(reflexivity).
  unfold ImageLoader.has_images. case_bool_decide as Hlt.
  - destruct (IH (ImageLoader.with_index (ImageLoader._index self + 1) self)
                (cv2.log_imread (ImageLoader._path self (ImageLoader._index self + 1)) w))
      as (images & self' & w' & Hloop & Hreads).
    { simpl. lia. }
    simpl ImageLoader._image_number in Hreads. simpl ImageLoader._index in Hreads.
    replace (Z.to_nat (ImageLoader._image_number self - ImageLoader._index self))
      with (S (Z.to_nat (ImageLoader._image_number self - (ImageLoader._index self + 1))))
      by lia.
    eexists _, self', w'. split.
    + bind_by ltac:(apply read_unfold).
      bind_by ltac:(apply Hloop). reflexivity.
    + simpl reads. bind_by ltac:(apply read_unfold).
      bind_by ltac:(apply Hreads). reflexivity.
  - replace (Z.to_nat (ImageLoader._image_number self - ImageLoader._index self))
      with 0%nat by lia.
    eexists [], self, w. split; reflexivity.
Qed.

Lemma image_loader_init (config : Config) w (entries : list string) :
  cv2.w_dirs w !! image_dataset config = Some entries →
  ImageLoader.init config w =
  Ok ({| ImageLoader._offset := image_number_offset config;
         ImageLoader._index := 0;
         ImageLoader._image_dataset := image_dataset config;
         ImageLoader._prefix := image_path_prefix config;
         ImageLoader._digits := image_path_digits config;
         ImageLoader._image_number := Z.of_nat (length entries) |}, w).
Proof.
  intros Hdir. unfold ImageLoader.init.
  bind_by ltac:(unfold os.listdir; by rewrite Hdir). reflexivity.
Qed.

End ImageLoaderFacts.

(** C3: an ImageLoader constructed over a directory with [N] entries and
    offset [o] starts at index 0; after [k] calls of [read()] the test
    [has_images()] answers true exactly when [k < N], so the loop
    [while has_images(): read()] makes exactly [N] reads; and the [k]-th
    read (from 1) hands the decoder the path formatted for number
    [k + o]. *)
Theorem image_loader_reads {Image} (config : Config) (w : cv2.World Image)
    (entries : list string) :
  cv2.w_dirs w !! image_dataset config = Some entries →
  ∃ self,
    ImageLoader.init config w = Ok (self, w)
    ∧ ImageLoader._index self = 0
    ∧ (∀ k : nat, ∃ images self_k w_k,
         reads k self w = Ok (images, self_k, w_k)
         ∧ ImageLoader.has_images self_k = bool_decide (k < length entries)%nat
         ∧ cv2.w_imread w_k =
             cv2.w_imread w ++
             ((λ j : nat,
                 numbered_path self (Z.of_nat j + image_number_offset config))
                <$> seq 1 k))
    ∧ (∀ fuel : nat, (length entries < fuel)%nat →
         ∃ images self_N w_N,
           read_loop fuel self w = Ok (true, images, self_N, w_N)
           ∧ reads (length entries) self w = Ok (images, self_N, w_N)
           ∧ length images = length entries).
Proof.
  intros Hdir. eexists. split_and!.
  - by apply image_loader_init.
  - reflexivity.
  - intros k.
    match goal with |- context [reads k ?s w] => set (self := s) end.
    destruct (reads_unfold k self w) as (w' & Hrun & Hlog & _).
    eexists _, _, w'. split_and!; [exact Hrun | |].
    + unfold ImageLoader.has_images. simpl.
      apply bool_decide_ext. lia.
    + rewrite Hlog. f_equal. apply list_fmap_ext. intros _ j _.
      rewrite path_numbered. reflexivity.
  - intros fuel Hfuel.
    match goal with |- context [read_loop fuel ?s w] => set (self := s) end.
    destruct (read_loop_unfold fuel self w) as (images & self' & w' & Hloop & Hreads).
    { simpl. lia. }
    replace (Z.to_nat (ImageLoader._image_number self - ImageLoader._index self))
      with (length entries) in Hreads by (simpl; lia).
    exists images, self', w'. split_and!; [done | done |].
    destruct (reads_unfold (length entries) self w) as (w'' & Hrun & _).
    rewrite Hrun in Hreads. injection Hreads as <- _ _.
    by rewrite length_fmap, length_seq.
Qed.

Lemma image_loader_reads_witness :
  ∃ self,
    ImageLoader.init (example_config 1 3)
      (example_world 1 3 [] ["img_002.jpg"; "img_003.jpg"] ∅)
    = Ok (self, example_world 1 3 [] ["img_002.jpg"; "img_003.jpg"] ∅)
    ∧ ∃ images self_2 w_2,
        reads 2 self (example_world 1 3 [] ["img_002.jpg"; "img_003.jpg"] ∅)
        = Ok (images, self_2, w_2)
        ∧ ImageLoader.has_images self_2 = false
        ∧ cv2.w_imread w_2 = ["frames/img_002.jpg"; "frames/img_003.jpg"].
Proof.
  destruct (image_loader_reads (example_config 1 3)
              (example_world 1 3 [] ["img_002.jpg"; "img_003.jpg"] ∅)
              ["img_002.jpg"; "img_003.jpg"] eq_refl)
    as (self & Hinit & _ & Hreads & _).
  exists self. split; [exact Hinit |].
  destruct (Hreads 2%nat) as (images & self_2 & w_2 & Hrun & Hmore & Hlog).
  exists images, self_2, w_2. split; [exact Hrun |]. split; [exact Hmore |].
  injection Hinit as <-. exact Hlog.
Defined.

(** C5, as amended: the path for logical position [i] is
    [directory/prefix<number>.jpg] for the number [i + offset], formatted
    with zero padding to a minimal width of 5 when the configured digit
    count is 5, of 3 when it is 3, and of 4 for any other value: the
    number is never written on fewer characters; a number that fits the
    width ([0 <= i + offset < 10^width]) is written with exactly that
    many decimal digits; a wider number ([10^width <= i + offset]) is
    written in full, as its plain decimal digits, on more characters
    than the width; and in every case what is written reads back as
    [i + offset]. *)
Theorem path_format (self : ImageLoader.t) (i : Z) :
  let n := i + ImageLoader._offset self in
  let w := pad_width (ImageLoader._digits self) in
  ImageLoader._path self i =
    ImageLoader._image_dataset self +:+ "/" +:+ ImageLoader._prefix self
    +:+ format_0w w n +:+ ".jpg"
  ∧ (ImageLoader._digits self = 5 → w = 5%nat)
  ∧ (ImageLoader._digits self = 3 → w = 3%nat)
  ∧ (ImageLoader._digits self ≠ 5 → ImageLoader._digits self ≠ 3 → w = 4%nat)
  ∧ (w ≤ String.length (format_0w w n))%nat
  ∧ (0 ≤ n < 10 ^ Z.of_nat w →
     String.length (format_0w w n) = w
     ∧ digits_value (format_0w w n) 0 = Some n
     ∧ format_0w w n = fixed_digits w n "")
  ∧ (10 ^ Z.of_nat w ≤ n →
     format_0w w n = decimal n
     ∧ (w < String.length (decimal n))%nat
     ∧ digits_value (decimal n) 0 = Some n)
  ∧ parse_int (format_0w w n) = Some n.
Proof.
  intros n w. split_and!.
  - apply path_numbered.
  - intros H. subst w. unfold pad_width. by rewrite bool_decide_true.
  - intros H. subst w. unfold pad_width.
    rewrite bool_decide_false by lia. by rewrite bool_decide_true.
  - intros H5 H3. subst w. unfold pad_width.
    by rewrite !bool_decide_false.
  - apply format_0w_min_width.
  - intros Hn. pose proof (pad_width_pos (ImageLoader._digits self)).
    destruct (format_0w_value w n) as [Hlen Hval]; [done | done |].
    split_and!; [done | done |]. by apply format_0w_fits.
  - intros Hwide. destruct (format_0w_wide w n Hwide) as [Hfull Hlong].
    split_and!; [done | done |]. apply digits_value_decimal.
    assert (0 < 10 ^ Z.of_nat w) by (apply Z.pow_pos_nonneg; lia). lia.
  - apply parse_int_format.
Qed.

Lemma path_format_witness :
  (ImageLoader._path (example_image_loader 40 5) 2 = "frames/img_00042.jpg"
   ∧ String.length (format_0w 5 42) = 5%nat
   ∧ digits_value (format_0w 5 42) 0 = Some 42)
  ∧ (ImageLoader._path (example_image_loader 0 3) 1000 = "frames/img_1000.jpg"
     ∧ format_0w 3 1000 = decimal 1000
     ∧ (3 < String.length (decimal 1000))%nat).
Proof.
  split.
  - destruct (path_format (example_image_loader 40 5) 2)
      as (Hpath & _ & _ & _ & _ & Hfit & _).
    split; [exact Hpath |].
    destruct Hfit as (Hlen & Hval & _).
    + vm_compute. split; [discriminate | reflexivity].
    + split; [exact Hlen | exact Hval].
  - destruct (path_format (example_image_loader 0 3) 1000)
      as (Hpath & _ & _ & _ & _ & _ & Hwide & _).
    split; [exact Hpath |].
    destruct Hwide as (Hfull & Hlong & _).
    + vm_compute. discriminate.
    + split; [exact Hfull | exact Hlong].
Defined.

(** C5, as stated, fails: with a configured digit count of 3 the number
    1000 is written on four digits, [frames/img_1000.jpg]; the number in
    the path does not have exactly three. *)
Lemma path_format_not_exact :
  ¬ (∀ (self : ImageLoader.t) (i : Z),
       ∃ number : string,
         ImageLoader._path self i =
           ImageLoader._image_dataset self +:+ "/" +:+ ImageLoader._prefix self
           +:+ number +:+ ".jpg"
         ∧ String.length number = pad_width (ImageLoader._digits self)).
Proof.
  intros Hclaim.
  destruct (Hclaim (example_image_loader 0 3) 1000) as (number & Hpath & Hlen).
  assert (String.length (ImageLoader._path (example_image_loader 0 3) 1000)
          = 19%nat) as Hlength by reflexivity.
  rewrite Hpath, !length_append in Hlength.
  change (pad_width (ImageLoader._digits (example_image_loader 0 3)))
    with 3%nat in Hlen.
  simpl in Hlength. lia.
Qed.

(** C7: after [set_index(v)], [read()] moves the cursor to [v + 1] and
    decodes the file of logical position [v + 1], the file numbered
    [v + 1 + offset]. *)
Theorem set_index_then_read {Image} (self : ImageLoader.t) (v : Z)
    (w : cv2.World Image) :
  ∃ self' w',
    ImageLoader.read (ImageLoader.set_index v self) w
    = Ok (cv2.w_images w !! ImageLoader._path self (v + 1), self', w')
    ∧ ImageLoader._index self' = v + 1
    ∧ cv2.w_imread w' = cv2.w_imread w ++ [ImageLoader._path self (v + 1)]
    ∧ ImageLoader._path self (v + 1)
      = numbered_path self (v + 1 + ImageLoader._offset self).
Proof.
  eexists _, _. rewrite read_unfold. split_and!.
  - reflexivity.
  - reflexivity.
  - reflexivity.
  - apply path_numbered.
Qed.

(** C8, as amended: when the file computed by [read()] is missing or
    corrupt, [read()] does not raise: it returns the decoder's empty
    value [None] to the caller, with the cursor advanced by one and after
    exactly one decode attempt (no retry). *)
Theorem read_missing_file {Image} (self : ImageLoader.t) (w : cv2.World Image) :
  cv2.w_images w !! ImageLoader._path self (ImageLoader._index self + 1) = None →
  ∃ self' w',
    ImageLoader.read self w = Ok (None, self', w')
    ∧ ImageLoader._index self' = ImageLoader._index self + 1
    ∧ cv2.w_imread w' =
        cv2.w_imread w ++ [ImageLoader._path self (ImageLoader._index self + 1)].
Proof.
  intros Hmissing. eexists _, _. rewrite read_unfold, Hmissing.
  split_and!; reflexivity.
Qed.

Lemma read_missing_file_witness :
  ∃ self' w',
    ImageLoader.read (example_image_loader 0 4) empty_world = Ok (None, self', w')
    ∧ ImageLoader._index self' = 1
    ∧ cv2.w_imread w' = ["frames/img_0001.jpg"].
Proof.
  apply (read_missing_file (example_image_loader 0 4) empty_world).
  reflexivity.
Defined.

(** C8, as stated, fails: a read whose file is missing returns a value,
    it raises nothing. *)
Lemma read_missing_file_no_error :
  ¬ (∀ (self : ImageLoader.t) (w : cv2.World nat),
       cv2.w_images w !! ImageLoader._path self (ImageLoader._index self + 1) = None →
       ∃ e, ImageLoader.read self w = Raise e).
Proof.
  intros Hclaim.
  destruct (Hclaim (example_image_loader 0 4) empty_world eq_refl) as [e He].
  discriminate He.
Qed.

(** ** The capture store *)

Section CaptureFacts.
Context {Image : Type}.
Implicit Types (c : cv2.Capture Image) (w : cv2.World Image).

Lemma decode_cap_at (frames : list Image) count p d :
  cv2.decode (cap_at frames count p d) =
  ((bool_decide (p < length frames)%nat, frames !! p),
   cap_at frames count (S p) (S d)).
Proof.
  unfold cv2.decode, cap_at. simpl.
  destruct (frames !! p) as [f|] eqn:Hp.
  - rewrite (drop_S _ _ _ Hp).
    rewrite bool_decide_true by (by eapply lookup_lt_Some).
    reflexivity.
  - apply lookup_ge_None in Hp.
    rewrite (drop_ge frames p), (drop_ge frames (S p)) by lia.
    rewrite bool_decide_false by lia. reflexivity.
Qed.

Lemma decode_dry c :
  dry c → (cv2.decode c).1 = (false, None) ∧ dry (cv2.decode c).2.
Proof.
  intros [Hclosed | Hend]; unfold cv2.decode, dry.
  - rewrite Hclosed. simpl. auto.
  - rewrite Hend. destruct (cv2.cap_opened c); simpl; auto.
Qed.

Lemma decode_releases c :
  cv2.cap_releases (cv2.decode c).2 = cv2.cap_releases c.
Proof.
  unfold cv2.decode.
  destruct (cv2.cap_opened c), (cv2.cap_stream c); reflexivity.
Qed.

Lemma cv2_read_at h c w :
  cv2.w_caps w !! h = Some c →
  cv2.read h w =
  Ok ((cv2.decode c).1, cv2.set_caps (<[h := (cv2.decode c).2]> (cv2.w_caps w)) w).
Proof.
  intros Hc. unfold cv2.read. rewrite Hc.
  by destruct (cv2.decode c) as [r c'].
Qed.

Lemma cv2_read_none h w :
  cv2.w_caps w !! h = None → cv2.read h w = Ok ((false, None), w).
Proof. intros Hc. unfold cv2.read. by rewrite Hc. Qed.

Lemma lookup_updated h c c' w :
  cv2.w_caps w !! h = Some c →
  cv2.w_caps (cv2.set_caps (<[h := c']> (cv2.w_caps w)) w) !! h = Some c'.
Proof.
  intros Hc. simpl. apply list_lookup_insert_eq.
  by eapply lookup_lt_Some.
Qed.

Lemma lookup_opened_first (caps : list (cv2.Capture Image)) a b :
  (caps ++ [a; b]) !! length caps = Some a.
Proof. rewrite lookup_app_r by lia. by rewrite Nat.sub_diag. Qed.

Lemma lookup_opened_second (caps : list (cv2.Capture Image)) a b :
  (caps ++ [a; b]) !! S (length caps) = Some b.
Proof.
  rewrite lookup_app_r by lia.
  by replace (S (length caps) - length caps)%nat with 1%nat by lia.
Qed.

End CaptureFacts.

(** ** VideoLoader: the methods, one call at a time *)

Section VideoLoaderCalls.
Context {Image : Type}.
Implicit Types (self : @VideoLoader.t Image) (w : cv2.World Image).

Lemma has_images_at self w c :
  cv2.w_caps w !! VideoLoader._cap self = Some c →
  VideoLoader.has_images self w =
  if cv2.cap_opened c then
    Ok ((cv2.decode c).1.1,
        VideoLoader.with_image_read false
          (VideoLoader.with_image (cv2.decode c).1.2 self),
        cv2.set_caps (<[VideoLoader._cap self := (cv2.decode c).2]> (cv2.w_caps w)) w)
  else Ok (false, self, w).
Proof.
  intros Hc. unfold VideoLoader.has_images.
  bind_by ltac:(unfold cv2.isOpened; rewrite Hc; reflexivity).
  unfold from_option. destruct (cv2.cap_opened c); cbn [negb].
  - bind_by ltac:(by apply cv2_read_at).
    by destruct (cv2.decode c) as [[r image] c'].
  - reflexivity.
Qed.

Lemma has_images_none self w :
  cv2.w_caps w !! VideoLoader._cap self = None →
  VideoLoader.has_images self w = Ok (false, self, w).
Proof.
  intros Hc. unfold VideoLoader.has_images.
  bind_by ltac:(unfold cv2.isOpened; rewrite Hc; reflexivity).
  reflexivity.
Qed.

Lemma read_buffered self w :
  VideoLoader._image_read self = false →
  VideoLoader.read self w =
  Ok (VideoLoader._image self,
      VideoLoader.with_image_read true
        (VideoLoader.with_index (VideoLoader._index self + 1) self), w).
Proof.
  intros Hb. unfold VideoLoader.read. simpl VideoLoader._image_read.
  rewrite Hb. reflexivity.
Qed.

Lemma read_decoding_at self w c :
  VideoLoader._image_read self = true →
  cv2.w_caps w !! VideoLoader._cap self = Some c →
  VideoLoader.read self w =
  Ok ((cv2.decode c).1.2,
      VideoLoader.with_image_read true
        (VideoLoader.with_image (cv2.decode c).1.2
           (VideoLoader.with_index (VideoLoader._index self + 1) self)),
      cv2.set_caps (<[VideoLoader._cap self := (cv2.decode c).2]> (cv2.w_caps w)) w).
Proof.
  intros Hb Hc. unfold VideoLoader.read. simpl VideoLoader._image_read.
  rewrite Hb. simpl VideoLoader._cap.
  pose proof (cv2_read_at _ _ _ Hc) as Hr.
  destruct (cv2.decode c) as [[r image] c']. simpl in Hr.
  bind_by ltac:(bind_by ltac:(exact Hr); reflexivity).
  reflexivity.
Qed.

Lemma read_decoding_none self w :
  VideoLoader._image_read self = true →
  cv2.w_caps w !! VideoLoader._cap self = None →
  VideoLoader.read self w =
  Ok (None,
      VideoLoader.with_image_read true
        (VideoLoader.with_image None
           (VideoLoader.with_index (VideoLoader._index self + 1) self)), w).
Proof.
  intros Hb Hc. unfold VideoLoader.read. simpl VideoLoader._image_read.
  rewrite Hb. simpl VideoLoader._cap.
  bind_by ltac:(bind_by ltac:(by apply cv2_read_none); reflexivity).
  reflexivity.
Qed.

Lemma end_at self w c :
  cv2.w_caps w !! VideoLoader._cap self = Some c →
  VideoLoader.end_ self w =
  Ok ((), self,
      cv2.set_caps (<[VideoLoader._cap self := cv2.released c]> (cv2.w_caps w)) w).
Proof.
  intros Hc. unfold VideoLoader.end_.
  bind_by ltac:(unfold cv2.release; rewrite Hc; reflexivity).
  reflexivity.
Qed.

Lemma end_none self w :
  cv2.w_caps w !! VideoLoader._cap self = None →
  VideoLoader.end_ self w = Ok ((), self, w).
Proof.
  intros Hc. unfold VideoLoader.end_.
  bind_by ltac:(unfold cv2.release; rewrite Hc; reflexivity).
  reflexivity.
Qed.

End VideoLoaderCalls.

(** ** VideoLoader: what every call preserves *)

Section VideoLoaderFrames.
Context {Image : Type}.
Implicit Types (self : @VideoLoader.t Image) (w : cv2.World Image).

Lemma framed_refl self w : framed self w self w.
Proof. by split_and!. Qed.

Lemma framed_trans self w self1 w1 self2 w2 :
  framed self w self1 w1 → framed self1 w1 self2 w2 → framed self w self2 w2.
Proof.
  intros (Hcap & Htot & Hlen & Hother) (Hcap' & Htot' & Hlen' & Hother').
  split_and!; [congruence | congruence | congruence |].
  intros h Hh. rewrite Hother' by congruence. by apply Hother.
Qed.

Lemma framed_update self self' w c' :
  VideoLoader._cap self' = VideoLoader._cap self →
  VideoLoader.total_frames self' = VideoLoader.total_frames self →
  framed self w self'
    (cv2.set_caps (<[VideoLoader._cap self := c']> (cv2.w_caps w)) w).
Proof.
  intros Hcap Htot. split_and!; [done | done | |]; simpl.
  - apply length_insert.
  - intros h Hh. by apply list_lookup_insert_ne.
Qed.

Lemma has_images_total self w :
  ∃ more self' w',
    VideoLoader.has_images self w = Ok (more, self', w')
    ∧ framed self w self' w'
    ∧ VideoLoader._index self' = VideoLoader._index self.
Proof.
  destruct (cv2.w_caps w !! VideoLoader._cap self) as [c|] eqn:Hc.
  - rewrite (has_images_at _ _ _ Hc). destruct (cv2.cap_opened c).
    + eexists _, _, _. split; [reflexivity |].
      split; [by apply framed_update | done].
    + eexists _, _, _. split; [reflexivity |].
      split; [apply framed_refl | done].
  - rewrite (has_images_none _ _ Hc). eexists _, _, _.
    split; [reflexivity |]. split; [apply framed_refl | done].
Qed.

Lemma read_total self w :
  ∃ image self' w',
    VideoLoader.read self w = Ok (image, self', w')
    ∧ framed self w self' w'
    ∧ VideoLoader._index self' = VideoLoader._index self + 1
    ∧ VideoLoader._image self' = image
    ∧ VideoLoader._image_read self' = true.
Proof.
  destruct (VideoLoader._image_read self) eqn:Hb.
  - destruct (cv2.w_caps w !! VideoLoader._cap self) as [c|] eqn:Hc.
    + rewrite (read_decoding_at _ _ _ Hb Hc). eexists _, _, _.
      split; [reflexivity |]. split; [by apply framed_update | done].
    + rewrite (read_decoding_none _ _ Hb Hc). eexists _, _, _.
      split; [reflexivity |]. split; [by split_and! | done].
  - rewrite (read_buffered _ _ Hb). eexists _, _, _.
    split; [reflexivity |]. split; [by split_and! | done].
Qed.

Lemma end_total self w :
  ∃ w',
    VideoLoader.end_ self w = Ok ((), self, w')
    ∧ framed self w self w'
    ∧ releases w' (VideoLoader._cap self)
      = match cv2.w_caps w !! VideoLoader._cap self with
        | Some _ => S (releases w (VideoLoader._cap self))
        | None => 0%nat
        end.
Proof.
  unfold releases.
  destruct (cv2.w_caps w !! VideoLoader._cap self) as [c|] eqn:Hc.
  - rewrite (end_at _ _ _ Hc). eexists. split; [reflexivity |].
    split; [by apply framed_update |].
    by rewrite (lookup_updated _ _ _ _ Hc).
  - rewrite (end_none _ _ Hc). eexists. split; [reflexivity |].
    split; [apply framed_refl |]. by rewrite Hc.
Qed.

(** Decoding leaves the release count of the loader's capture alone. *)
Lemma has_images_releases self w more self' w' :
  VideoLoader.has_images self w = Ok (more, self', w') →
  releases w' (VideoLoader._cap self) = releases w (VideoLoader._cap self).
Proof.
  unfold releases.
  destruct (cv2.w_caps w !! VideoLoader._cap self) as [c|] eqn:Hc.
  - rewrite (has_images_at _ _ _ Hc). destruct (cv2.cap_opened c).
    + intros [= _ _ <-]. rewrite (lookup_updated _ _ _ _ Hc). simpl.
      apply decode_releases.
    + intros [= _ _ <-]. by rewrite Hc.
  - rewrite (has_images_none _ _ Hc). intros [= _ _ <-]. by rewrite Hc.
Qed.

Lemma read_releases self w image self' w' :
  VideoLoader.read self w = Ok (image, self', w') →
  releases w' (VideoLoader._cap self) = releases w (VideoLoader._cap self).
Proof.
  unfold releases.
  destruct (VideoLoader._image_read self) eqn:Hb.
  - destruct (cv2.w_caps w !! VideoLoader._cap self) as [c|] eqn:Hc.
    + rewrite (read_decoding_at _ _ _ Hb Hc). intros [= _ _ <-].
      rewrite (lookup_updated _ _ _ _ Hc). simpl. apply decode_releases.
    + rewrite (read_decoding_none _ _ Hb Hc). intros [= _ _ <-].
      by rewrite Hc.
  - rewrite (read_buffered _ _ Hb). by intros [= _ _ <-].
Qed.

(** *** When no frame is obtainable *)

Lemma has_images_no_frame self w :
  no_frame self w →
  ∃ self' w',
    VideoLoader.has_images self w = Ok (false, self', w') ∧ no_frame self' w'.
Proof.
  intros (Himg & c & Hc & Hdry).
  rewrite (has_images_at _ _ _ Hc).
  destruct (decode_dry c Hdry) as [Hres Hdry'].
  destruct (cv2.cap_opened c) eqn:Hopen.
  - rewrite Hres. eexists _, _. split; [reflexivity |].
    split; [done |]. eexists. split; [by eapply lookup_updated | done].
  - eexists _, _. split; [reflexivity |]. split; [done |]. by exists c.
Qed.

Lemma read_no_frame self w :
  no_frame self w →
  ∃ self' w',
    VideoLoader.read self w = Ok (None, self', w') ∧ no_frame self' w'.
Proof.
  intros (Himg & c & Hc & Hdry).
  destruct (decode_dry c Hdry) as [Hres Hdry'].
  destruct (VideoLoader._image_read self) eqn:Hb.
  - rewrite (read_decoding_at _ _ _ Hb Hc), Hres. eexists _, _.
    split; [reflexivity |]. split; [done |].
    eexists. split; [by eapply lookup_updated | done].
  - rewrite (read_buffered _ _ Hb), Himg. eexists _, _.
    split; [reflexivity |]. split; [done |]. by exists c.
Qed.

Lemma end_no_frame self w :
  no_frame self w →
  ∃ w', VideoLoader.end_ self w = Ok ((), self, w') ∧ no_frame self w'.
Proof.
  intros (Himg & c & Hc & Hdry).
  rewrite (end_at _ _ _ Hc). eexists. split; [reflexivity |].
  split; [done |]. eexists. split; [by eapply lookup_updated |].
  by left.
Qed.

(** *** On an opened capture standing at a stream position *)

Lemma has_images_at_position frames count p d self w :
  at_position frames count p d self w →
  ∃ self' w',
    VideoLoader.has_images self w
      = Ok (bool_decide (p < length frames)%nat, self', w')
    ∧ at_position frames count (S p) (S d) self' w'
    ∧ VideoLoader._cap self' = VideoLoader._cap self
    ∧ VideoLoader._index self' = VideoLoader._index self
    ∧ VideoLoader._image self' = frames !! p
    ∧ VideoLoader._image_read self' = false.
Proof.
  intros Hc. unfold at_position in Hc.
  rewrite (has_images_at _ _ _ Hc), decode_cap_at. simpl.
  eexists _, _. split; [reflexivity |].
  split; [| done]. unfold at_position. simpl.
  apply list_lookup_insert_eq. by eapply lookup_lt_Some.
Qed.

Lemma read_at_position frames count p d self w :
  at_position frames count p d self w →
  VideoLoader._image_read self = true →
  ∃ self' w',
    VideoLoader.read self w = Ok (frames !! p, self', w')
    ∧ at_position frames count (S p) (S d) self' w'
    ∧ VideoLoader._cap self' = VideoLoader._cap self
    ∧ VideoLoader._index self' = VideoLoader._index self + 1
    ∧ VideoLoader._image_read self' = true.
Proof.
  intros Hc Hb. unfold at_position in Hc.
  rewrite (read_decoding_at _ _ _ Hb Hc), decode_cap_at. simpl.
  eexists _, _. split; [reflexivity |].
  split; [| done]. unfold at_position. simpl.
  apply list_lookup_insert_eq. by eapply lookup_lt_Some.
Qed.

Lemma read_buffered_at_position frames count p d self w :
  at_position frames count p d self w →
  VideoLoader._image_read self = false →
  ∃ self',
    VideoLoader.read self w = Ok (VideoLoader._image self, self', w)
    ∧ at_position frames count p d self' w
    ∧ VideoLoader._cap self' = VideoLoader._cap self
    ∧ VideoLoader._index self' = VideoLoader._index self + 1
    ∧ VideoLoader._image_read self' = true.
Proof.
  intros Hc Hb. rewrite (read_buffered _ _ Hb).
  eexists. split; [reflexivity |]. by split_and!.
Qed.

(** One round of [has_images()] then [read()]. *)
Lemma probe_read_at_position frames count p d self w :
  at_position frames count p d self w →
  ∃ self1 w1 self2,
    VideoLoader.has_images self w
      = Ok (bool_decide (p < length frames)%nat, self1, w1)
    ∧ VideoLoader.read self1 w1 = Ok (frames !! p, self2, w1)
    ∧ at_position frames count (S p) (S d) self2 w1
    ∧ VideoLoader._cap self2 = VideoLoader._cap self
    ∧ VideoLoader._index self2 = VideoLoader._index self + 1
    ∧ VideoLoader._image_read self2 = true.
Proof.
  intros Hc.
  destruct (has_images_at_position _ _ _ _ _ _ Hc)
    as (self1 & w1 & Hprobe & Hc1 & Hcap1 & Hidx1 & Himg1 & Hb1).
  destruct (read_buffered_at_position _ _ _ _ _ _ Hc1 Hb1)
    as (self2 & Hread & Hc2 & Hcap2 & Hidx2 & Hb2).
  exists self1, w1, self2. rewrite Himg1 in Hread.
  split_and!; [done | done | done | congruence | lia | done].
Qed.

End VideoLoaderFrames.

(** ** VideoLoader: sequences of calls *)

Section VideoLoaderRuns.
Context {Image : Type}.
Implicit Types (self : @VideoLoader.t Image) (w : cv2.World Image).

(** The skip loop of the constructor on an opened capture: it leaves the
    capture [n] positions further (at its end when the stream is
    shorter), after [n] decoder invocations, with one [read()] per frame
    obtained. *)
Lemma skip_at_position frames count (n : nat) : ∀ p d self w,
  at_position frames count p d self w →
  ∃ self' w',
    VideoLoader.skip n self w = Ok (self', w')
    ∧ at_position frames count (p + n) (d + n) self' w'
    ∧ framed self w self' w'
    ∧ VideoLoader._index self'
      = VideoLoader._index self + Z.of_nat (n `min` (length frames - p))
    ∧ ((1 ≤ n)%nat →
       VideoLoader._image_read self' = bool_decide (p + n ≤ length frames)%nat
       ∧ ((length frames < p + n)%nat → VideoLoader._image self' = None)).
Proof.
  induction n as [|n IH]; intros p d self w Hc.
  - exists self, w. simpl. rewrite !Nat.add_0_r, Z.add_0_r.
    split_and!; [done | done | apply framed_refl | done | lia].
  - simpl VideoLoader.skip.
    destruct (has_images_at_position _ _ _ _ _ _ Hc)
      as (self1 & w1 & Hprobe & Hc1 & _ & Hidx1 & Himg1 & Hb1).
    destruct (has_images_total self w) as (? & ? & ? & Hprobe' & Hfr1 & _).
    rewrite Hprobe in Hprobe'. injection Hprobe' as <- <- <-.
    bind_by ltac:(exact Hprobe).
    case_bool_decide as Hp.
    + destruct (read_buffered_at_position _ _ _ _ _ _ Hc1 Hb1)
        as (self2 & Hread & Hc2 & _ & Hidx2 & Hb2).
      destruct (read_total self1 w1) as (? & ? & ? & Hread' & Hfr2 & _).
      rewrite Hread in Hread'. injection Hread' as <- <- <-.
      bind_by ltac:(bind_by ltac:(exact Hread); reflexivity).
      destruct (IH (S p) (S d) self2 w1 Hc2)
        as (self' & w' & Hskip & Hc' & Hfr' & Hidx' & Hlast).
      exists self', w'. rewrite Hskip.
      replace (p + S n)%nat with (S p + n)%nat by lia.
      replace (d + S n)%nat with (S d + n)%nat by lia.
      split_and!; [done | done | | lia |].
      * eapply framed_trans; [| exact Hfr'].
        eapply framed_trans; [exact Hfr1 | exact Hfr2].
      * intros _. destruct n as [|n].
        { simpl in Hskip. injection Hskip as <- <-.
          rewrite Hb2. rewrite bool_decide_true by lia. split; [done | lia]. }
        apply Hlast. lia.
    + bind_by ltac:(reflexivity).
      destruct (IH (S p) (S d) self1 w1 Hc1)
        as (self' & w' & Hskip & Hc' & Hfr' & Hidx' & Hlast).
      exists self', w'. rewrite Hskip.
      replace (p + S n)%nat with (S p + n)%nat by lia.
      replace (d + S n)%nat with (S d + n)%nat by lia.
      split_and!; [done | done | | lia |].
      * eapply framed_trans; [exact Hfr1 | exact Hfr'].
      * intros _. destruct n as [|n].
        { simpl in Hskip. injection Hskip as <- <-.
          rewrite Hb1. rewrite bool_decide_false by lia.
          split; [done |]. intros _. rewrite Himg1.
          apply lookup_ge_None. lia. }
        apply Hlast. lia.
Qed.

(** The skip loop on a capture that is not opened does nothing. *)
Lemma skip_closed (n : nat) self w c :
  cv2.w_caps w !! VideoLoader._cap self = Some c →
  cv2.cap_opened c = false →
  VideoLoader.skip n self w = Ok (self, w).
Proof.
  intros Hc Hclosed. induction n as [|n IH]; [done |].
  simpl VideoLoader.skip.
  bind_by ltac:(rewrite (has_images_at _ _ _ Hc), Hclosed; reflexivity).
  bind_by ltac:(reflexivity). exact IH.
Qed.

(** [n] plain reads on an opened capture, once a read has been made. *)
Lemma reads_at_position frames count (n : nat) : ∀ p d self w,
  at_position frames count p d self w →
  VideoLoader._image_read self = true →
  ∃ self' w',
    reads n self w = Ok (frames_from frames p n, self', w')
    ∧ at_position frames count (p + n) (d + n) self' w'
    ∧ VideoLoader._cap self' = VideoLoader._cap self
    ∧ VideoLoader._index self' = VideoLoader._index self + Z.of_nat n.
Proof.
  induction n as [|n IH]; intros p d self w Hc Hb.
  - exists self, w. rewrite !Nat.add_0_r, Z.add_0_r. by split_and!.
  - destruct (read_at_position _ _ _ _ _ _ Hc Hb)
      as (self1 & w1 & Hread & Hc1 & Hcap1 & Hidx1 & Hb1).
    destruct (IH (S p) (S d) self1 w1 Hc1 Hb1)
      as (self' & w' & Hreads & Hc' & Hcap' & Hidx').
    exists self', w'. simpl reads.
    bind_by ltac:(exact Hread). bind_by ltac:(exact Hreads).
    replace (p + S n)%nat with (S p + n)%nat by lia.
    replace (d + S n)%nat with (S d + n)%nat by lia.
    split_and!; [reflexivity | done | congruence | lia].
Qed.

(** [n] rounds of [has_images()] then [read()] on an opened capture. *)
Lemma probed_reads_at_position frames count (n : nat) : ∀ p d self w,
  at_position frames count p d self w →
  ∃ self' w',
    probed_reads n self w
      = Ok ((λ k, bool_decide (k < length frames)%nat) <$> seq p n,
            frames_from frames p n, self', w')
    ∧ at_position frames count (p + n) (d + n) self' w'
    ∧ VideoLoader._cap self' = VideoLoader._cap self
    ∧ VideoLoader._index self' = VideoLoader._index self + Z.of_nat n.
Proof.
  induction n as [|n IH]; intros p d self w Hc.
  - exists self, w. rewrite !Nat.add_0_r, Z.add_0_r. by split_and!.
  - destruct (probe_read_at_position _ _ _ _ _ _ Hc)
      as (self1 & w1 & self2 & Hprobe & Hread & Hc2 & Hcap2 & Hidx2 & Hb2).
    destruct (IH (S p) (S d) self2 w1 Hc2)
      as (self' & w' & Hrounds & Hc' & Hcap' & Hidx').
    exists self', w'. simpl probed_reads.
    bind_by ltac:(exact Hprobe). bind_by ltac:(exact Hread).
    bind_by ltac:(exact Hrounds).
    replace (p + S n)%nat with (S p + n)%nat by lia.
    replace (d + S n)%nat with (S d + n)%nat by lia.
    split_and!; [reflexivity | done | congruence | lia].
Qed.

(** Both call patterns when no frame is obtainable. *)
Lemma reads_no_frame (n : nat) : ∀ self w,
  no_frame self w →
  ∃ self' w', reads n self w = Ok (replicate n None, self', w').
Proof.
  induction n as [|n IH]; intros self w Hno.
  - by exists self, w.
  - destruct (read_no_frame _ _ Hno) as (self1 & w1 & Hread & Hno1).
    destruct (IH self1 w1 Hno1) as (self' & w' & Hreads).
    exists self', w'. simpl reads.
    bind_by ltac:(exact Hread). bind_by ltac:(exact Hreads). reflexivity.
Qed.

Lemma probed_reads_no_frame (n : nat) : ∀ self w,
  no_frame self w →
  ∃ self' w',
    probed_reads n self w
      = Ok (replicate n false, replicate n None, self', w').
Proof.
  induction n as [|n IH]; intros self w Hno.
  - by exists self, w.
  - destruct (has_images_no_frame _ _ Hno) as (self1 & w1 & Hprobe & Hno1).
    destruct (read_no_frame _ _ Hno1) as (self2 & w2 & Hread & Hno2).
    destruct (IH self2 w2 Hno2) as (self' & w' & Hrounds).
    exists self', w'. simpl probed_reads.
    bind_by ltac:(exact Hprobe). bind_by ltac:(exact Hread).
    bind_by ltac:(exact Hrounds). reflexivity.
Qed.

(** Any sequence of method calls returns; it keeps what [framed] names
    and releases the loader's capture once per [end()]. *)
Lemma calls_framed (cs : list Call) : ∀ self w,
  is_Some (cv2.w_caps w !! VideoLoader._cap self) →
  ∃ self' w',
    calls cs self w = Ok (self', w')
    ∧ framed self w self' w'
    ∧ releases w' (VideoLoader._cap self)
      = (releases w (VideoLoader._cap self) + length (filter (λ c, c = End) cs))%nat.
Proof.
  induction cs as [|c cs IH]; intros self w Hsome.
  - exists self, w. simpl. rewrite Nat.add_0_r.
    split_and!; [done | apply framed_refl | done].
  - assert (∃ self1 w1,
      call c self w = Ok (self1, w1) ∧ framed self w self1 w1
      ∧ releases w1 (VideoLoader._cap self)
        = (releases w (VideoLoader._cap self)
           + (if decide (c = End) then 1 else 0))%nat)
      as (self1 & w1 & Hcall & Hfr1 & Hrel1).
    { destruct c; unfold call.
      - destruct (has_images_total self w) as (more & self1 & w1 & Hrun & Hfr & _).
        exists self1, w1. change (has_images self) with (VideoLoader.has_images self).
        bind_by ltac:(exact Hrun).
        split_and!; [done | done |].
        rewrite (has_images_releases _ _ _ _ _ Hrun). simpl. lia.
      - destruct (read_total self w) as (image & self1 & w1 & Hrun & Hfr & _).
        exists self1, w1. change (read self) with (VideoLoader.read self).
        bind_by ltac:(exact Hrun).
        split_and!; [done | done |].
        rewrite (read_releases _ _ _ _ _ Hrun). simpl. lia.
      - destruct (end_total self w) as (w1 & Hrun & Hfr & Hrel).
        exists self, w1. change (end_ self) with (VideoLoader.end_ self).
        bind_by ltac:(exact Hrun).
        split_and!; [done | done |].
        rewrite Hrel. destruct Hsome as [c0 ->]. simpl. lia. }
    destruct (IH self1 w1) as (self' & w' & Hcalls & Hfr' & Hrel').
    { destruct Hfr1 as (Hcap & _ & Hlen & _). rewrite Hcap.
      apply lookup_lt_is_Some. rewrite Hlen.
      by apply lookup_lt_is_Some. }
    exists self', w'. simpl calls. bind_by ltac:(exact Hcall).
    split_and!; [done | by eapply framed_trans |].
    destruct Hfr1 as (Hcap & _). rewrite Hcap in Hrel'.
    rewrite Hrel', Hrel1. rewrite filter_cons.
    destruct (decide (c = End)); simpl; lia.
Qed.

(** Calls when no frame is obtainable keep it so. *)
Lemma calls_no_frame (cs : list Call) : ∀ self w,
  no_frame self w →
  ∃ self' w', calls cs self w = Ok (self', w') ∧ no_frame self' w'.
Proof.
  induction cs as [|c cs IH]; intros self w Hno.
  - by exists self, w.
  - assert (∃ self1 w1, call c self w = Ok (self1, w1) ∧ no_frame self1 w1)
      as (self1 & w1 & Hcall & Hno1).
    { destruct c; unfold call.
      - destruct (has_images_no_frame _ _ Hno) as (self1 & w1 & Hrun & Hno1).
        exists self1, w1. change (has_images self) with (VideoLoader.has_images self).
        by bind_by ltac:(exact Hrun).
      - destruct (read_no_frame _ _ Hno) as (self1 & w1 & Hrun & Hno1).
        exists self1, w1. change (read self) with (VideoLoader.read self).
        by bind_by ltac:(exact Hrun).
      - destruct (end_no_frame _ _ Hno) as (w1 & Hrun & Hno1).
        exists self, w1. change (end_ self) with (VideoLoader.end_ self).
        by bind_by ltac:(exact Hrun). }
    destruct (IH self1 w1 Hno1) as (self' & w' & Hcalls & Hno').
    exists self', w'. simpl calls. by bind_by ltac:(exact Hcall).
Qed.

End VideoLoaderRuns.

(** ** VideoLoader: construction *)

Section VideoLoaderInit.
Context {Image : Type}.
Implicit Types (self : @VideoLoader.t Image) (w : cv2.World Image).

Lemma open_capture_frame_count (path : string) w :
  cv2.cap_frame_count (cv2.open_capture path w) = reported_frame_count w path.
Proof.
  unfold cv2.open_capture, reported_frame_count.
  by destruct (cv2.w_videos w !! path).
Qed.

Lemma destroyed_at_lookup_ne (h h' : nat) w :
  h ≠ h' → cv2.w_caps (cv2.destroyed_at h' w) !! h = cv2.w_caps w !! h.
Proof.
  intros Hne. unfold cv2.destroyed_at.
  destruct (cv2.w_caps w !! h') as [c|]; [| done].
  simpl. by apply list_lookup_insert_ne.
Qed.

Lemma destroyed_at_lookup (h : nat) w c :
  cv2.w_caps w !! h = Some c →
  cv2.w_caps (cv2.destroyed_at h w) !! h = Some (cv2.destroyed c).
Proof.
  intros Hc. unfold cv2.destroyed_at. rewrite Hc.
  by eapply lookup_updated.
Qed.

Lemma destroyed_at_length (h : nat) w :
  length (cv2.w_caps (cv2.destroyed_at h w)) = length (cv2.w_caps w).
Proof.
  unfold cv2.destroyed_at. destruct (cv2.w_caps w !! h) as [c|]; [| done].
  simpl. apply length_insert.
Qed.

(** [__init__] opens two captures, runs the skip loop and loses the
    second capture when it returns. *)
Lemma init_unfold (config : Config) w :
  VideoLoader.init config w =
  (self ← VideoLoader.skip (Z.to_nat (image_number_offset config + 1))
            (fresh config w);
   cv2.destroy (S (length (cv2.w_caps w)));; mret self)
    (opened_twice config w).
Proof.
  unfold VideoLoader.init.
  bind_by ltac:(reflexivity). bind_by ltac:(reflexivity).
  bind_by ltac:(reflexivity).
  assert (∀ (A : Type) (l : list A) (x : A), length (l ++ [x]) = S (length l))
    as Hlen by (intros; rewrite length_app; simpl; lia).
  simpl cv2.w_caps. rewrite Hlen.
  replace (cv2.set_caps _ _) with (opened_twice config w)
    by (unfold opened_twice, cv2.set_caps; simpl; f_equal;
        by rewrite <- app_assoc).
  match goal with
  | |- (VideoLoader.skip _ ?s ≫= _) _ = _ =>
      replace s with (fresh config w); [done |]
  end.
  unfold fresh. f_equal.
  rewrite lookup_app_r by (rewrite Hlen; lia).
  rewrite Hlen, Nat.sub_diag. simpl.
  by rewrite open_capture_frame_count.
Qed.

Lemma init_of_skip (config : Config) w self w0 :
  VideoLoader.skip (Z.to_nat (image_number_offset config + 1))
    (fresh config w) (opened_twice config w) = Ok (self, w0) →
  VideoLoader.init config w
  = Ok (self, cv2.destroyed_at (S (length (cv2.w_caps w))) w0).
Proof.
  intros Hskip. rewrite init_unfold. bind_by ltac:(exact Hskip).
  reflexivity.
Qed.

Lemma skip_releases (n : nat) : ∀ self w self' w',
  VideoLoader.skip n self w = Ok (self', w') →
  releases w' (VideoLoader._cap self) = releases w (VideoLoader._cap self).
Proof.
  induction n as [|n IH]; intros self w self' w'.
  - by intros [= <- <-].
  - simpl VideoLoader.skip.
    destruct (has_images_total self w)
      as (more & self1 & w1 & Hprobe & (Hcap1 & _) & _).
    bind_by ltac:(exact Hprobe).
    pose proof (has_images_releases _ _ _ _ _ Hprobe) as Hrel1.
    destruct more.
    + destruct (read_total self1 w1)
        as (image & self2 & w2 & Hread & (Hcap2 & _) & _).
      bind_by ltac:(bind_by ltac:(exact Hread); reflexivity).
      pose proof (read_releases _ _ _ _ _ Hread) as Hrel2.
      intros Hskip. apply IH in Hskip.
      rewrite Hcap2, Hcap1 in Hskip. rewrite Hcap1 in Hrel2. congruence.
    + bind_by ltac:(reflexivity).
      intros Hskip. apply IH in Hskip. rewrite Hcap1 in Hskip. congruence.
Qed.

(** The loader and the world [__init__] returns: over an openable video
    the sequential capture stands [N] positions into the stream (at its
    end when the stream is shorter) after [N] decoder invocations, where
    [N] is the length of [range(offset + 1)]; over a video that cannot
    be opened no frame is obtainable.  The second capture is destroyed. *)
Lemma init_cases (config : Config) w :
  let N := Z.to_nat (image_number_offset config + 1) in
  let frames := stream_of w (video_path config) in
  ∃ self w1,
    VideoLoader.init config w = Ok (self, w1)
    ∧ (VideoLoader._cap self = length (cv2.w_caps w)
       ∧ VideoLoader.total_frames self
         = reported_frame_count w (video_path config) + 1
       ∧ length (cv2.w_caps w1) = (length (cv2.w_caps w) + 2)%nat
       ∧ cv2.w_caps w1 !! S (length (cv2.w_caps w))
         = Some (cv2.destroyed (cv2.open_capture (video_path config) w)))
    ∧ releases w1 (VideoLoader._cap self) = 0%nat
    ∧ VideoLoader._index self = Z.of_nat (N `min` length frames)
    ∧ (N = 0%nat → VideoLoader._image_read self = false
                   ∧ VideoLoader._image self = None)
    ∧ ((is_Some (cv2.w_videos w !! video_path config)
        ∧ at_position frames (reported_frame_count w (video_path config)) N N self w1
        ∧ ((1 ≤ N)%nat →
           VideoLoader._image_read self = bool_decide (N ≤ length frames)%nat
           ∧ ((length frames < N)%nat → VideoLoader._image self = None)))
       ∨ (cv2.w_videos w !! video_path config = None ∧ no_frame self w1
          ∧ self = fresh config w
          ∧ w1 = cv2.destroyed_at (S (length (cv2.w_caps w)))
                   (opened_twice config w))).
Proof.
  intros N frames.
  assert (cv2.w_caps (opened_twice config w) !! VideoLoader._cap (fresh config w)
          = Some (cv2.open_capture (video_path config) w)) as Hfirst
    by apply lookup_opened_first.
  assert (cv2.w_caps (opened_twice config w) !! S (length (cv2.w_caps w))
          = Some (cv2.open_capture (video_path config) w)) as Hsecond
    by apply lookup_opened_second.
  assert (releases (opened_twice config w) (VideoLoader._cap (fresh config w)) = 0%nat)
    as Hrel0.
  { unfold releases. rewrite Hfirst. unfold cv2.open_capture.
    by destruct (cv2.w_videos w !! video_path config). }
  (* what the skip loop leaves carries over the loss of the second capture *)
  assert (∀ self w0,
    VideoLoader.skip N (fresh config w) (opened_twice config w) = Ok (self, w0) →
    framed (fresh config w) (opened_twice config w) self w0 →
    let w1 := cv2.destroyed_at (S (length (cv2.w_caps w))) w0 in
    VideoLoader.init config w = Ok (self, w1)
    ∧ (VideoLoader._cap self = length (cv2.w_caps w)
       ∧ VideoLoader.total_frames self
         = reported_frame_count w (video_path config) + 1
       ∧ length (cv2.w_caps w1) = (length (cv2.w_caps w) + 2)%nat
       ∧ cv2.w_caps w1 !! S (length (cv2.w_caps w))
         = Some (cv2.destroyed (cv2.open_capture (video_path config) w)))
    ∧ releases w1 (VideoLoader._cap self) = 0%nat
    ∧ cv2.w_caps w1 !! VideoLoader._cap self
      = cv2.w_caps w0 !! VideoLoader._cap self) as Hwrap.
  { intros self w0 Hskip (Hcap & Htot & Hlen & Hother) w1.
    simpl in Hcap, Htot, Hlen, Hother.
    rewrite length_app in Hlen. simpl in Hlen.
    assert (cv2.w_caps w1 !! VideoLoader._cap self
            = cv2.w_caps w0 !! VideoLoader._cap self) as Hsame
      by (apply destroyed_at_lookup_ne; lia).
    refine (conj (init_of_skip _ _ _ _ Hskip)
              (conj (conj Hcap (conj Htot (conj _ _))) (conj _ Hsame))).
    - subst w1. by rewrite destroyed_at_length.
    - subst w1. apply destroyed_at_lookup. rewrite Hother by lia. done.
    - unfold releases. rewrite Hsame.
      pose proof (skip_releases _ _ _ _ _ Hskip) as Hrel.
      unfold releases in Hrel, Hrel0. rewrite Hcap. simpl in Hrel.
      by rewrite Hrel. }
  destruct (cv2.w_videos w !! video_path config) as [vf|] eqn:Hvideo.
  - assert (at_position frames (reported_frame_count w (video_path config))
              0 0 (fresh config w) (opened_twice config w)) as Hc.
    { unfold at_position. rewrite Hfirst. unfold cv2.open_capture, cap_at.
      subst frames. unfold stream_of, reported_frame_count.
      by rewrite Hvideo. }
    destruct (skip_at_position _ _ N _ _ _ _ Hc)
      as (self & w0 & Hskip & Hc1 & Hfr & Hidx & Hlast).
    destruct (Hwrap self w0 Hskip Hfr) as (Hinit & Hhandles & Hrel & Hsame).
    eexists self, _. simpl in Hc1, Hidx. rewrite Nat.sub_0_r in Hidx.
    refine (conj Hinit (conj Hhandles (conj Hrel (conj Hidx (conj _ _))))).
    + intros HN. rewrite HN in Hskip. by injection Hskip as <- <-.
    + left. split_and!; [done | | done]. unfold at_position. by rewrite Hsame.
  - assert (VideoLoader.skip N (fresh config w) (opened_twice config w)
            = Ok (fresh config w, opened_twice config w)) as Hskip.
    { eapply skip_closed; [exact Hfirst |].
      unfold cv2.open_capture. by rewrite Hvideo. }
    destruct (Hwrap _ _ Hskip (framed_refl _ _))
      as (Hinit & Hhandles & Hrel & Hsame).
    eexists (fresh config w), _.
    assert (frames = []) as Hnil
      by (subst frames; unfold stream_of; by rewrite Hvideo).
    refine (conj Hinit (conj Hhandles (conj Hrel (conj _ (conj _ _))))).
    + rewrite Hnil. simpl. lia.
    + done.
    + right. split; [done |]. split; [| done].
      split; [done |]. eexists. split; [rewrite Hsame; exact Hfirst |].
      left. unfold cv2.open_capture. by rewrite Hvideo.
Qed.

End VideoLoaderInit.

(** ** VideoLoader: the properties *)

Lemma at_position_decodes {Image} (frames : list Image) count p d
    (self : @VideoLoader.t Image) w :
  at_position frames count p d self w → decodes w (VideoLoader._cap self) = d.
Proof. unfold at_position, decodes. by intros ->. Qed.

Lemma at_position_remaining {Image} (frames : list Image) count p d
    (self : @VideoLoader.t Image) w :
  at_position frames count p d self w →
  remaining w (VideoLoader._cap self) = drop p frames.
Proof. unfold at_position, remaining. by intros ->. Qed.

Lemma at_position_end_no_frame {Image} (frames : list Image) count p d
    (self : @VideoLoader.t Image) w :
  at_position frames count p d self w → (length frames ≤ p)%nat →
  VideoLoader._image self = None → no_frame self w.
Proof.
  intros Hc Hp Himg. split; [done |]. eexists. split; [exact Hc |].
  right. simpl. by apply drop_ge.
Qed.

(** For a VideoLoader constructed with an offset [o >= 0], [n] rounds of
    [has_images()] then [read()] return the same sequence of values as
    [n] calls of [read()] alone; and when the constructor's skip completed
    (the video opens and has at least [o + 1] frames) these are the
    stream's frames from position [o + 1] on ([None] past the end), and in
    both call patterns the decoder invocations on the sequential capture
    equal the [read()] calls made, constructor included. *)
Theorem probe_read_equivalence {Image} (config : Config) (w : cv2.World Image)
    (n : nat) :
  0 ≤ image_number_offset config →
  ∃ self w1,
    VideoLoader.init config w = Ok (self, w1)
    ∧ ∃ answers images selfA wA selfB wB,
        probed_reads n self w1 = Ok (answers, images, selfA, wA)
        ∧ reads n self w1 = Ok (images, selfB, wB)
        ∧ (is_Some (cv2.w_videos w !! video_path config) →
           image_number_offset config + 1
             ≤ Z.of_nat (length (stream_of w (video_path config))) →
           let h := VideoLoader._cap self in
           let N := Z.to_nat (image_number_offset config + 1) in
           images = frames_from (stream_of w (video_path config)) N n
           ∧ decodes w1 h = N ∧ VideoLoader._index self = Z.of_nat N
           ∧ decodes wA h = (N + n)%nat
           ∧ VideoLoader._index selfA = Z.of_nat (N + n)
           ∧ decodes wB h = (N + n)%nat
           ∧ VideoLoader._index selfB = Z.of_nat (N + n)).
Proof.
  intros Hoffset.
  destruct (init_cases config w)
    as (self & w1 & Hinit & Hfr & _ & Hidx & _ & Hstate).
  set (N := Z.to_nat (image_number_offset config + 1)) in *.
  set (frames := stream_of w (video_path config)) in *.
  assert (1 ≤ N)%nat as HN by lia.
  exists self, w1. split; [done |].
  assert (no_frame self w1 →
          (is_Some (cv2.w_videos w !! video_path config) → (length frames < N)%nat) →
          ∃ (answers : list bool) (images : list (option Image)) selfA wA selfB wB,
            probed_reads n self w1 = Ok (answers, images, selfA, wA)
            ∧ reads n self w1 = Ok (images, selfB, wB)
            ∧ (is_Some (cv2.w_videos w !! video_path config) →
               image_number_offset config + 1 ≤ Z.of_nat (length frames) →
               let h := VideoLoader._cap self in
               images = frames_from frames N n
               ∧ decodes w1 h = N ∧ VideoLoader._index self = Z.of_nat N
               ∧ decodes wA h = (N + n)%nat
               ∧ VideoLoader._index selfA = Z.of_nat (N + n)
               ∧ decodes wB h = (N + n)%nat
               ∧ VideoLoader._index selfB = Z.of_nat (N + n))) as Hdry.
  { intros Hno Hshort.
    destruct (probed_reads_no_frame n _ _ Hno) as (selfA & wA & HA).
    destruct (reads_no_frame n _ _ Hno) as (selfB & wB & HB).
    eexists _, _, selfA, wA, selfB, wB. split; [exact HA |].
    split; [exact HB |]. intros Hsome Hlong. specialize (Hshort Hsome). lia. }
  destruct Hstate as [(Hsome & Hc & Hlast) | (Hnone & Hno & _ & _)].
  - destruct (Hlast HN) as (Hb & Himg).
    destruct (decide (N ≤ length frames)%nat) as [Hlong | Hshort].
    + rewrite bool_decide_true in Hb by done.
      destruct (probed_reads_at_position _ _ n _ _ _ _ Hc)
        as (selfA & wA & HA & HcA & HcapA & HidxA).
      destruct (reads_at_position _ _ n _ _ _ _ Hc Hb)
        as (selfB & wB & HB & HcB & HcapB & HidxB).
      eexists _, _, selfA, wA, selfB, wB. split; [exact HA |].
      split; [exact HB |]. intros _ _.
      pose proof (at_position_decodes _ _ _ _ _ _ Hc) as Hd.
      pose proof (at_position_decodes _ _ _ _ _ _ HcA) as HdA.
      pose proof (at_position_decodes _ _ _ _ _ _ HcB) as HdB.
      rewrite HcapA in HdA. rewrite HcapB in HdB.
      split_and!; [done | done | lia | done | lia | done | lia].
    + apply Hdry.
      * apply (at_position_end_no_frame _ _ _ _ _ _ Hc); [lia |].
        apply Himg. lia.
      * intros _. lia.
  - apply Hdry; [done |]. intros [vf Hvf]. congruence.
Qed.

Lemma probe_read_equivalence_witness :
  ∃ self w1,
    VideoLoader.init (example_config 1 4)
      (example_world 1 4 [10; 20; 30; 40; 50]%nat [] ∅) = Ok (self, w1)
    ∧ ∃ answers selfA wA selfB wB,
        probed_reads 2 self w1
          = Ok (answers, [Some 30; Some 40]%nat, selfA, wA)
        ∧ reads 2 self w1 = Ok ([Some 30; Some 40]%nat, selfB, wB)
        ∧ decodes wA (VideoLoader._cap self) = 4%nat
        ∧ decodes wB (VideoLoader._cap self) = 4%nat.
Proof.
  destruct (probe_read_equivalence (example_config 1 4)
              (example_world 1 4 [10; 20; 30; 40; 50]%nat [] ∅) 2)
    as (self & w1 & Hinit & answers & images & selfA & wA & selfB & wB
        & HA & HB & Hcount).
  { simpl. lia. }
  exists self, w1. split; [exact Hinit |].
  destruct Hcount as (Himages & _ & _ & HdA & _ & HdB & _).
  { eexists. reflexivity. }
  { vm_compute. discriminate. }
  exists answers, selfA, wA, selfB, wB.
  rewrite Himages in HA, HB.
  split; [exact HA |]. split; [exact HB |].
  split; [exact HdA | exact HdB].
Defined.

(** The loader built with offset [-1] over the example video: nothing is
    skipped and nothing is buffered. *)
Lemma init_at_offset_minus_one (frames : list nat) :
  ∃ self w1,
    VideoLoader.init (example_config (-1) 4)
      (example_world (-1) 4 frames [] ∅) = Ok (self, w1)
    ∧ at_position frames (Z.of_nat (length frames)) 0 0 self w1
    ∧ VideoLoader._image_read self = false
    ∧ VideoLoader._image self = None.
Proof.
  destruct (init_cases (example_config (-1) 4)
              (example_world (-1) 4 frames [] ∅))
    as (self & w1 & Hinit & _ & _ & _ & Hzero & Hstate).
  destruct (Hzero eq_refl) as (Hb & Himg).
  destruct Hstate as [(_ & Hc & _) | (Hnone & _)]; [| discriminate Hnone].
  by exists self, w1.
Qed.

(** C1: the code run where the claim fails.  With offset [-1] over a
    video of two frames the constructor skips nothing; one round of
    [has_images()] then [read()] returns the first frame after one
    decoder invocation, while one [read()] alone returns the initial
    [None] after no decoder invocation at all: the two sequences differ
    and the second pattern does not decode once per value. *)
Theorem probe_read_differs_at_offset_minus_one :
  ∃ self w1 selfA wA selfB wB,
    VideoLoader.init (example_config (-1) 4)
      (example_world (-1) 4 [10; 20]%nat [] ∅) = Ok (self, w1)
    ∧ probed_reads 1 self w1 = Ok ([true], [Some 10%nat], selfA, wA)
    ∧ reads 1 self w1 = Ok ([None], selfB, wB)
    ∧ decodes w1 (VideoLoader._cap self) = 0%nat
    ∧ decodes wA (VideoLoader._cap self) = 1%nat
    ∧ decodes wB (VideoLoader._cap self) = 0%nat.
Proof.
  destruct (init_at_offset_minus_one [10; 20]%nat)
    as (self & w1 & Hinit & Hc & Hb & Himg).
  destruct (probed_reads_at_position _ _ 1 _ _ _ _ Hc)
    as (selfA & wA & HA & HcA & HcapA & _).
  destruct (read_buffered_at_position _ _ _ _ _ _ Hc Hb)
    as (selfB & HB & HcB & HcapB & _).
  exists self, w1, selfA, wA, selfB, w1.
  pose proof (at_position_decodes _ _ _ _ _ _ Hc) as Hd.
  pose proof (at_position_decodes _ _ _ _ _ _ HcA) as HdA.
  rewrite HcapA in HdA. rewrite Himg in HB.
  split_and!; [exact Hinit | exact HA | | exact Hd | exact HdA | exact Hd].
  simpl reads. change (read self) with (VideoLoader.read self).
  bind_by ltac:(exact HB). reflexivity.
Qed.

(** Constructing a VideoLoader with an offset [o >= 0] consumes exactly
    [o + 1] frames of the stream before the constructor returns, or all of
    them when the stream is shorter (none when the video cannot be
    opened), with one [read()] per frame consumed; the first [read()]
    after construction yields frame [o + 2] of the stream (position
    [o + 1] from 0), or [None] when the stream has no such frame. *)
Theorem init_skips_offset {Image} (config : Config) (w : cv2.World Image) :
  0 ≤ image_number_offset config →
  let frames := stream_of w (video_path config) in
  let N := Z.to_nat (image_number_offset config + 1) in
  ∃ self w1,
    VideoLoader.init config w = Ok (self, w1)
    ∧ remaining w1 (VideoLoader._cap self) = drop N frames
    ∧ VideoLoader._index self = Z.of_nat (N `min` length frames)
    ∧ ∃ self' w2, VideoLoader.read self w1 = Ok (frames !! N, self', w2).
Proof.
  intros Hoffset frames N.
  destruct (init_cases config w)
    as (self & w1 & Hinit & Hfr & _ & Hidx & _ & Hstate).
  fold N in Hidx, Hstate. fold frames in Hidx, Hstate.
  assert (1 ≤ N)%nat as HN by lia.
  exists self, w1. split; [done |].
  destruct Hstate as [(Hsome & Hc & Hlast) | (Hnone & Hno & -> & ->)].
  - split; [by eapply at_position_remaining |]. split; [done |].
    destruct (Hlast HN) as (Hb & Himg).
    destruct (decide (N ≤ length frames)%nat) as [Hlong | Hshort].
    + rewrite bool_decide_true in Hb by done.
      destruct (read_at_position _ _ _ _ _ _ Hc Hb) as (self' & w2 & Hread & _).
      by exists self', w2.
    + rewrite bool_decide_false in Hb by done.
      rewrite (read_buffered _ _ Hb), Himg by lia.
      rewrite (proj2 (lookup_ge_None frames N)) by lia.
      by eexists _, _.
  - assert (frames = []) as Hnil
      by (subst frames; unfold stream_of; by rewrite Hnone).
    rewrite Hnil in *. rewrite drop_nil, lookup_nil.
    split_and!; [| done |].
    + unfold remaining.
      rewrite destroyed_at_lookup_ne by (simpl; lia).
      unfold opened_twice. simpl.
      rewrite lookup_opened_first. unfold cv2.open_capture.
      by rewrite Hnone.
    + destruct (read_no_frame _ _ Hno) as (self' & w2 & Hread & _).
      by exists self', w2.
Qed.

Lemma init_skips_offset_witness :
  ∃ self w1,
    VideoLoader.init (example_config 1 4)
      (example_world 1 4 [10; 20; 30; 40; 50]%nat [] ∅) = Ok (self, w1)
    ∧ remaining w1 (VideoLoader._cap self) = [30; 40; 50]%nat
    ∧ VideoLoader._index self = 2
    ∧ ∃ self' w2, VideoLoader.read self w1 = Ok (Some 30%nat, self', w2).
Proof.
  apply (init_skips_offset (example_config 1 4)
           (example_world 1 4 [10; 20; 30; 40; 50]%nat [] ∅)).
  simpl. lia.
Defined.

(** C2: the code run where the claim fails.  With offset [-1] over a
    video of two frames the constructor consumes [o + 1 = 0] frames, as
    claimed, but the first [read()] after it returns the initial [None]
    and decodes nothing, where frame [o + 2 = 1] of the stream is
    there to be read. *)
Theorem first_read_at_offset_minus_one :
  ∃ self w1 self' w2,
    VideoLoader.init (example_config (-1) 4)
      (example_world (-1) 4 [10; 20]%nat [] ∅) = Ok (self, w1)
    ∧ remaining w1 (VideoLoader._cap self) = [10; 20]%nat
    ∧ stream_of (example_world (-1) 4 [10; 20]%nat [] ∅) "river.mp4" !! 0%nat
      = Some 10%nat
    ∧ VideoLoader.read self w1 = Ok (None, self', w2)
    ∧ remaining w2 (VideoLoader._cap self) = [10; 20]%nat.
Proof.
  destruct (init_at_offset_minus_one [10; 20]%nat)
    as (self & w1 & Hinit & Hc & Hb & Himg).
  destruct (read_buffered_at_position _ _ _ _ _ _ Hc Hb)
    as (self' & Hread & _).
  exists self, w1, self', w1. rewrite Himg in Hread.
  pose proof (at_position_remaining _ _ _ _ _ _ Hc) as Hrem.
  split_and!; [exact Hinit | exact Hrem | reflexivity | exact Hread | exact Hrem].
Qed.

(** The two handles [__init__] opens, as the constructed loader and the
    world hold them. *)
Lemma init_handles {Image} (config : Config) (w : cv2.World Image) :
  ∃ self w1,
    VideoLoader.init config w = Ok (self, w1)
    ∧ VideoLoader._cap self = length (cv2.w_caps w)
    ∧ VideoLoader.total_frames self
      = reported_frame_count w (video_path config) + 1
    ∧ length (cv2.w_caps w1) = (length (cv2.w_caps w) + 2)%nat
    ∧ cv2.w_caps w1 !! S (length (cv2.w_caps w))
      = Some (cv2.destroyed (cv2.open_capture (video_path config) w))
    ∧ releases w1 (VideoLoader._cap self) = 0%nat.
Proof.
  destruct (init_cases config w)
    as (self & w1 & Hinit & (Hcap & Htot & Hlen & Hsecond) & Hrel & _).
  by exists self, w1.
Qed.

(** C6: the [total_frames] a VideoLoader fixes at construction is the
    frame count the decoder reports for the video (read through the
    second capture) plus one, and no later call changes it. *)
Theorem total_frames_reported {Image} (config : Config) (w : cv2.World Image)
    (cs : list Call) :
  ∃ self w1 self' w',
    VideoLoader.init config w = Ok (self, w1)
    ∧ VideoLoader.total_frames self
      = reported_frame_count w (video_path config) + 1
    ∧ cv2.get_frame_count (S (length (cv2.w_caps w))) w1
      = Ok (VideoLoader.total_frames self - 1, w1)
    ∧ calls cs self w1 = Ok (self', w')
    ∧ VideoLoader.total_frames self' = VideoLoader.total_frames self.
Proof.
  destruct (init_handles config w)
    as (self & w1 & Hinit & Hcap & Htot & Hlen & Hsecond & _).
  destruct (calls_framed cs self w1) as (self' & w' & Hcalls & (_ & Htot' & _) & _).
  { apply lookup_lt_is_Some. lia. }
  exists self, w1, self', w'. split_and!; [done | done | | done | done].
  unfold cv2.get_frame_count. rewrite Hsecond. simpl.
  rewrite open_capture_frame_count, Htot. do 2 f_equal. lia.
Qed.

(** C9: [VideoLoader.read()] never raises: from any state it returns a
    value and moves the index up by exactly one; after a [has_images()]
    that answered false on an opened capture (the stream is exhausted) it
    returns [None]; and on a loader whose video could not be opened it
    returns [None] after any sequence of calls. *)
Theorem video_read_never_raises {Image} (self : @VideoLoader.t Image)
    (w : cv2.World Image) (config : Config) (w0 : cv2.World Image)
    (cs : list Call) :
  (∃ image self' w',
     VideoLoader.read self w = Ok (image, self', w')
     ∧ VideoLoader._index self' = VideoLoader._index self + 1)
  ∧ (∀ c self1 w1,
       cv2.w_caps w !! VideoLoader._cap self = Some c →
       cv2.cap_opened c = true →
       VideoLoader.has_images self w = Ok (false, self1, w1) →
       ∃ self2 w2,
         VideoLoader.read self1 w1 = Ok (None, self2, w2)
         ∧ VideoLoader._index self2 = VideoLoader._index self1 + 1)
  ∧ (cv2.w_videos w0 !! video_path config = None →
     ∃ self0 w1 self1 w2 self2 w3,
       VideoLoader.init config w0 = Ok (self0, w1)
       ∧ calls cs self0 w1 = Ok (self1, w2)
       ∧ VideoLoader.read self1 w2 = Ok (None, self2, w3)
       ∧ VideoLoader._index self2 = VideoLoader._index self1 + 1).
Proof.
  split_and!.
  - destruct (read_total self w) as (image & self' & w' & Hread & _ & Hidx & _).
    by exists image, self', w'.
  - intros c self1 w1 Hc Hopen. rewrite (has_images_at _ _ _ Hc), Hopen.
    unfold cv2.decode. rewrite Hopen.
    destruct (cv2.cap_stream c); simpl; intros Heq; [| discriminate Heq].
    injection Heq as <- <-.
    rewrite read_buffered by done. by eexists _, _.
  - intros Hnone.
    destruct (init_cases config w0)
      as (self0 & w1 & Hinit & _ & _ & _ & _ & Hstate).
    destruct Hstate as [([vf Hvf] & _) | (_ & Hno & _)]; [congruence |].
    destruct (calls_no_frame cs _ _ Hno) as (self1 & w2 & Hcalls & Hno1).
    destruct (read_no_frame _ _ Hno1) as (self2 & w3 & Hread & _).
    destruct (read_total self1 w2) as (? & ? & ? & Hread' & _ & Hidx & _).
    rewrite Hread in Hread'. injection Hread' as <- <- <-.
    by exists self0, w1, self1, w2, self2, w3.
Qed.

Lemma video_read_never_raises_witness :
  (∃ self2 w2,
     VideoLoader.read
       {| VideoLoader._offset := 0; VideoLoader._index := 1;
          VideoLoader._video_path := "river.mp4"; VideoLoader._cap := 0;
          VideoLoader._image := None; VideoLoader._image_read := false;
          VideoLoader.total_frames := 2 |}
       (cv2.set_caps [cap_at [10%nat] 1 2 2] empty_world)
     = Ok (None, self2, w2)
     ∧ VideoLoader._index self2 = 2)
  ∧ (∃ self0 w1 self1 w2 self2 w3,
       VideoLoader.init (example_config 0 4) empty_world = Ok (self0, w1)
       ∧ calls [HasImages; Read; End; Read] self0 w1 = Ok (self1, w2)
       ∧ VideoLoader.read self1 w2 = Ok (None, self2, w3)
       ∧ VideoLoader._index self2 = VideoLoader._index self1 + 1).
Proof.
  destruct (video_read_never_raises
              {| VideoLoader._offset := 0; VideoLoader._index := 1;
                 VideoLoader._video_path := "river.mp4"; VideoLoader._cap := 0;
                 VideoLoader._image := Some 10%nat;
                 VideoLoader._image_read := true;
                 VideoLoader.total_frames := 2 |}
              (cv2.set_caps [cap_at [10%nat] 1 1 1] empty_world)
              (example_config 0 4) empty_world [HasImages; Read; End; Read])
    as (_ & Hexhausted & Hclosed).
  split.
  - exact (Hexhausted _ _ _ eq_refl eq_refl eq_refl).
  - exact (Hclosed eq_refl).
Defined.

(** C10: a VideoLoader's constructor opens a second capture handle, used
    only to compute [total_frames]; the loader keeps no reference to it,
    so the object is destroyed when the constructor returns, and no
    operation on the loader ever releases it or decodes from it: after
    any sequence of calls its record is the one of a capture that was
    opened and destroyed, with no [release()] and no [read()] made on it,
    while each [end()] releases the sequential-read capture. *)
Theorem second_capture_never_released {Image} (config : Config)
    (w : cv2.World Image) (cs : list Call) :
  let h2 := S (length (cv2.w_caps w)) in
  ∃ self w1 self' w',
    VideoLoader.init config w = Ok (self, w1)
    ∧ calls cs self w1 = Ok (self', w')
    ∧ length (cv2.w_caps w1) = (length (cv2.w_caps w) + 2)%nat
    ∧ VideoLoader._cap self = length (cv2.w_caps w)
    ∧ VideoLoader._cap self' = VideoLoader._cap self
    ∧ cv2.w_caps w1 !! h2
      = Some (cv2.destroyed (cv2.open_capture (video_path config) w))
    ∧ VideoLoader.total_frames self
      = cv2.cap_frame_count (cv2.open_capture (video_path config) w) + 1
    ∧ cv2.w_caps w' !! h2
      = Some (cv2.destroyed (cv2.open_capture (video_path config) w))
    ∧ releases w' h2 = 0%nat
    ∧ decodes w' h2 = 0%nat
    ∧ releases w' (VideoLoader._cap self)
      = length (filter (λ c, c = End) cs).
Proof.
  intros h2.
  destruct (init_handles config w)
    as (self & w1 & Hinit & Hcap & Htot & Hlen & Hsecond & Hrel).
  destruct (calls_framed cs self w1)
    as (self' & w' & Hcalls & (Hcap' & _ & _ & Hother) & Hrel').
  { apply lookup_lt_is_Some. lia. }
  assert (cv2.w_caps w' !! h2
          = Some (cv2.destroyed (cv2.open_capture (video_path config) w)))
    as Hsecond' by (rewrite Hother by (subst h2; lia); done).
  exists self, w1, self', w'.
  split_and!; [done | done | done | done | done | done | | done | | |].
  - by rewrite open_capture_frame_count.
  - unfold releases. rewrite Hsecond'. unfold cv2.open_capture.
    by destruct (cv2.w_videos w !! video_path config).
  - unfold decodes. rewrite Hsecond'. unfold cv2.open_capture.
    by destruct (cv2.w_videos w !! video_path config).
  - rewrite Hrel', Hrel. lia.
Qed.

(** ** get_loader *)

(** C4: for a configuration record found under the session key,
    [get_loader] returns an ImageLoader when the configured image
    directory has at least one entry and a VideoLoader when it has
    none. *)
Theorem get_loader_selects {Image} (w : cv2.World Image)
    (config_path video_identifier : string) (store : gmap string Config)
    (config : Config) (entries : list string) :
  cv2.w_configs w !! config_path = Some store →
  store !! video_identifier = Some config →
  cv2.w_dirs w !! image_dataset config = Some entries →
  ((1 ≤ length entries)%nat →
   ∃ loader,
     get_loader config_path video_identifier w = Ok (of_ImageLoader loader, w)
     ∧ ImageLoader.init config w = Ok (loader, w))
  ∧ (length entries = 0%nat →
     ∃ loader w',
       get_loader config_path video_identifier w = Ok (of_VideoLoader loader, w')
       ∧ VideoLoader.init config w = Ok (loader, w')).
Proof.
  intros Hfile Hkey Hdir.
  assert (load_config config_path video_identifier w = Ok (config, w)) as Hload
    by (unfold load_config; by rewrite Hfile, Hkey).
  assert (os.scandir (image_dataset config) w = Ok (entries, w)) as Hscan
    by (unfold os.scandir, os.listdir; by rewrite Hdir).
  split.
  - intros Hsome. destruct entries as [|entry entries]; [simpl in Hsome; lia |].
    eexists. unfold get_loader.
    bind_by ltac:(exact Hload). bind_by ltac:(exact Hscan). cbn [any].
    pose proof (image_loader_init _ _ _ Hdir) as Hinit.
    bind_by ltac:(exact Hinit). split; [reflexivity | exact Hinit].
  - intros Hnone. destruct entries as [|entry entries]; [| discriminate Hnone].
    destruct (init_handles config w) as (loader & w' & Hinit & _).
    exists loader, w'. unfold get_loader.
    bind_by ltac:(exact Hload). bind_by ltac:(exact Hscan). cbn [any].
    bind_by ltac:(exact Hinit). split; [reflexivity | exact Hinit].
Qed.

Lemma get_loader_selects_witness :
  (∃ loader,
     get_loader "station.json" "v1"
       (example_world 0 4 [10; 20]%nat ["img_0001.jpg"] ∅)
     = Ok (of_ImageLoader loader,
           example_world 0 4 [10; 20]%nat ["img_0001.jpg"] ∅)
     ∧ ImageLoader.init (example_config 0 4)
         (example_world 0 4 [10; 20]%nat ["img_0001.jpg"] ∅)
       = Ok (loader, example_world 0 4 [10; 20]%nat ["img_0001.jpg"] ∅))
  ∧ (∃ loader w',
       get_loader "station.json" "v1" (example_world 0 4 [10; 20]%nat [] ∅)
       = Ok (of_VideoLoader loader, w')
       ∧ VideoLoader.init (example_config 0 4)
           (example_world 0 4 [10; 20]%nat [] ∅)
         = Ok (loader, w')).
Proof.
  split.
  - apply (get_loader_selects
             (example_world 0 4 [10; 20]%nat ["img_0001.jpg"] ∅)
             "station.json" "v1" {[ "v1" := example_config 0 4 ]}
             (example_config 0 4) ["img_0001.jpg"]);
      [reflexivity | reflexivity | reflexivity | simpl; lia].
  - apply (get_loader_selects (example_world 0 4 [10; 20]%nat [] ∅)
             "station.json" "v1" {[ "v1" := example_config 0 4 ]}
             (example_config 0 4) []);
      reflexivity.
Defined.

(** * Further properties of the module *)

(** ** The number in a path reads back *)

Lemma format_0w_inj (w : nat) n m : format_0w w n = format_0w w m → n = m.
Proof.
  intros Heq. apply (f_equal parse_int) in Heq.
  rewrite !parse_int_format in Heq. congruence.
Qed.

Lemma append_cancel_l (s a b : string) : s +:+ a = s +:+ b → a = b.
Proof. induction s as [|c s IH]; simpl; [done |]. intros [= H]. auto. Qed.

Lemma append_cancel_r (t : string) : ∀ s s', s +:+ t = s' +:+ t → s = s'.
Proof.
  induction s as [|c s IH]; intros [|c' s'] Heq.
  - done.
  - apply (f_equal String.length) in Heq.
    change (String.length (String c' (s' +:+ t)))
      with (S (String.length (s' +:+ t))) in Heq.
    rewrite !length_append in Heq. simpl in Heq. lia.
  - apply (f_equal String.length) in Heq.
    change (String.length (String c (s +:+ t)))
      with (S (String.length (s +:+ t))) in Heq.
    rewrite !length_append in Heq. simpl in Heq. lia.
  - simpl in Heq. injection Heq as -> Heq. f_equal. by apply IH.
Qed.

(** X1: the number written in the path of logical position [i] reads
    back as [i + offset], for every integer: padded, wider than the
    width, or negative. *)
Theorem path_number_reads_back (self : ImageLoader.t) (i : Z) :
  ∃ number : string,
    ImageLoader._path self i =
      ImageLoader._image_dataset self +:+ "/" +:+ ImageLoader._prefix self
      +:+ number +:+ ".jpg"
    ∧ parse_int number = Some (i + ImageLoader._offset self).
Proof.
  eexists. split; [apply path_numbered |]. apply parse_int_format.
Qed.

(** X2: one loader never gives two different logical positions the same
    file path. *)
Theorem path_injective (self : ImageLoader.t) (i j : Z) :
  i ≠ j → ImageLoader._path self i ≠ ImageLoader._path self j.
Proof.
  intros Hne. rewrite !path_numbered. unfold numbered_path. intros Heq.
  do 3 apply append_cancel_l in Heq.
  apply append_cancel_r, format_0w_inj in Heq. lia.
Qed.

Lemma path_injective_witness :
  ImageLoader._path (example_image_loader 0 3) 999
  ≠ ImageLoader._path (example_image_loader 0 3) 1000.
Proof.
  apply (path_injective (example_image_loader 0 3) 999 1000). lia.
Defined.

(** X3: a number with more digits than the selected width is written in
    full, without padding and without losing a digit. *)
Theorem path_wide_number (self : ImageLoader.t) (i : Z) :
  10 ^ Z.of_nat (pad_width (ImageLoader._digits self))
    ≤ i + ImageLoader._offset self →
  ImageLoader._path self i =
    ImageLoader._image_dataset self +:+ "/" +:+ ImageLoader._prefix self
    +:+ decimal (i + ImageLoader._offset self) +:+ ".jpg"
  ∧ (pad_width (ImageLoader._digits self)
     < String.length (decimal (i + ImageLoader._offset self)))%nat.
Proof.
  intros Hwide. rewrite path_numbered. unfold numbered_path.
  set (n := i + ImageLoader._offset self) in *.
  set (w := pad_width (ImageLoader._digits self)) in *.
  assert (0 < 10 ^ Z.of_nat w) by (apply Z.pow_pos_nonneg; lia).
  destruct (decimal_fixed n ltac:(lia)) as (k & Hk1 & _ & Hup & Hdec).
  assert (w < k)%nat as Hwk.
  { destruct (decide (w < k)%nat) as [? | Hle]; [done |].
    assert (10 ^ Z.of_nat k ≤ 10 ^ Z.of_nat w) by (apply Z.pow_le_mono_r; lia).
    lia. }
  assert (String.length (decimal n) = k) as Hlen
    by (rewrite Hdec, fixed_digits_length; simpl; lia).
  split; [| lia].
  unfold format_0w. destruct (Z.ltb_spec n 0) as [? | _]; [lia |].
  unfold zfill. rewrite Hlen.
  by replace (w - k)%nat with 0%nat by lia.
Qed.

Lemma path_wide_number_witness :
  ImageLoader._path (example_image_loader 0 3) 1000 = "frames/img_1000.jpg".
Proof.
  apply (path_wide_number (example_image_loader 0 3) 1000).
  vm_compute. discriminate.
Defined.

(** ** ImageLoader under any sequence of calls *)

Lemma count_reads_cons (c : Call) (cs : list Call) :
  count_reads (c :: cs)
  = ((if decide (c = Read) then 1 else 0) + count_reads cs)%nat.
Proof.
  unfold count_reads. rewrite filter_cons.
  by destruct (decide (c = Read)).
Qed.

Lemma log_imreads_nil {Image} (w : cv2.World Image) : log_imreads [] w = w.
Proof. destruct w. unfold log_imreads. simpl. by rewrite app_nil_r. Qed.

Lemma log_imreads_app {Image} (p q : list string) (w : cv2.World Image) :
  log_imreads q (log_imreads p w) = log_imreads (p ++ q) w.
Proof. unfold log_imreads. simpl. by rewrite app_assoc. Qed.

Lemma image_with_index_id (self : ImageLoader.t) :
  ImageLoader.with_index (ImageLoader._index self) self = self.
Proof. by destruct self. Qed.

(** X4: whatever sequence of [has_images()], [read()] and [end()] is
    called on an ImageLoader, nothing raises; the loader changes only in
    its index, which goes up by exactly the number of [read()] calls; and
    the world changes only in that [imread] was called once per
    [read()]: no capture is opened, released or decoded from. *)
Theorem image_loader_calls {Image} (cs : list Call) (self : ImageLoader.t)
    (w : cv2.World Image) :
  ∃ self' paths,
    calls cs self w = Ok (self', log_imreads paths w)
    ∧ length paths = count_reads cs
    ∧ ImageLoader._index self'
      = ImageLoader._index self + Z.of_nat (count_reads cs)
    ∧ self' = ImageLoader.with_index (ImageLoader._index self') self.
Proof.
  revert self w. induction cs as [|c cs IH]; intros self w.
  - exists self, []. simpl calls. rewrite log_imreads_nil, image_with_index_id.
    change (count_reads []) with 0%nat.
    split_and!; [done | done | lia | done].
  - rewrite count_reads_cons. simpl calls. destruct c.
    + destruct (IH self w) as (self' & paths & Hcalls & Hlen & Hidx & Hself).
      exists self', paths. unfold call.
      bind_by ltac:(bind_by ltac:(reflexivity); reflexivity).
      split_and!; [done | done | simpl; lia | done].
    + destruct (IH (ImageLoader.with_index (ImageLoader._index self + 1) self)
                  (cv2.log_imread
                     (ImageLoader._path self (ImageLoader._index self + 1)) w))
        as (self' & paths & Hcalls & Hlen & Hidx & Hself).
      exists self',
        (ImageLoader._path self (ImageLoader._index self + 1) :: paths).
      unfold call.
      bind_by ltac:(bind_by ltac:(apply read_unfold); reflexivity).
      rewrite Hcalls.
      change (cv2.log_imread ?p w) with (log_imreads [p] w).
      rewrite log_imreads_app. simpl in Hidx.
      split_and!; [done | simpl; lia | simpl; lia | done].
    + destruct (IH self w) as (self' & paths & Hcalls & Hlen & Hidx & Hself).
      exists self', paths. unfold call.
      bind_by ltac:(bind_by ltac:(reflexivity); reflexivity).
      split_and!; [done | done | simpl; lia | done].
Qed.

(** X5: [set_index(v)] repositions without touching the world and
    without a bounds check: the next [k] reads decode the files of the
    logical positions [v + 1] to [v + k], and [has_images()] answers
    whether [v] is below the number of entries counted at
    construction. *)
Theorem set_index_then_reads {Image} (self : ImageLoader.t) (v : Z) (k : nat)
    (w : cv2.World Image) :
  ∃ self' w',
    reads k (ImageLoader.set_index v self) w
    = Ok ((λ j : nat, cv2.w_images w !! ImageLoader._path self (v + Z.of_nat j))
            <$> seq 1 k, self', w')
    ∧ ImageLoader._index self' = v + Z.of_nat k
    ∧ cv2.w_imread w'
      = cv2.w_imread w
        ++ ((λ j : nat, ImageLoader._path self (v + Z.of_nat j)) <$> seq 1 k)
    ∧ ImageLoader.has_images (ImageLoader.set_index v self)
      = bool_decide (v < ImageLoader._image_number self).
Proof.
  destruct (reads_unfold k (ImageLoader.set_index v self) w)
    as (w' & Hreads & Hlog & _).
  eexists _, w'. split_and!; [exact Hreads | done | exact Hlog | done].
Qed.

(** ** get_loader: errors and what it hands back *)

Lemma get_loader_unfold {Image} (w : cv2.World Image)
    (config_path video_identifier : string) (store : gmap string Config)
    (config : Config) (entries : list string) :
  cv2.w_configs w !! config_path = Some store →
  store !! video_identifier = Some config →
  cv2.w_dirs w !! image_dataset config = Some entries →
  get_loader config_path video_identifier w =
  (if any entries then
     loader ← ImageLoader.init config; mret (of_ImageLoader loader)
   else
     loader ← VideoLoader.init config; mret (of_VideoLoader loader)) w.
Proof.
  intros Hfile Hkey Hdir. unfold get_loader.
  bind_by ltac:(unfold load_config; by rewrite Hfile, Hkey).
  bind_by ltac:(unfold os.scandir, os.listdir; by rewrite Hdir).
  reflexivity.
Qed.

Lemma absent_no_config {Image} (w : cv2.World Image) (path : string) :
  absent w path → cv2.w_configs w !! path = None.
Proof.
  unfold absent, cv2.is_file. intros Habs.
  destruct (cv2.w_configs w !! path) as [store|] eqn:Hfile; [| done].
  rewrite (bool_decide_true (is_Some (Some store))) in Habs by eauto.
  by rewrite !orb_true_r in Habs.
Qed.

Lemma absent_no_directory {Image} (w : cv2.World Image) (path : string) :
  absent w path →
  cv2.w_dirs w !! path = None ∧ cv2.is_file w path = false.
Proof.
  unfold absent, cv2.is_directory. intros Habs.
  apply orb_false_elim in Habs as [Hdir Hfile]. split; [| done].
  destruct (cv2.w_dirs w !! path) as [entries|]; [| done].
  rewrite bool_decide_true in Hdir by eauto. discriminate.
Qed.

Lemma get_loader_no_file {Image} (w : cv2.World Image)
    (config_path video_identifier : string) :
  cv2.w_configs w !! config_path = None →
  get_loader config_path video_identifier w
  = Raise (if cv2.is_directory w config_path || cv2.is_file w config_path
           then NotAConfigStore config_path
           else FileNotFoundError config_path).
Proof.
  intros Hfile. unfold get_loader, mbind, M_bind, load_config.
  rewrite Hfile.
  by destruct (cv2.is_directory w config_path || cv2.is_file w config_path).
Qed.

Lemma get_loader_no_key {Image} (w : cv2.World Image)
    (config_path video_identifier : string) (store : gmap string Config) :
  cv2.w_configs w !! config_path = Some store →
  store !! video_identifier = None →
  get_loader config_path video_identifier w
  = Raise (KeyError video_identifier).
Proof.
  intros Hfile Hkey. unfold get_loader, mbind, M_bind, load_config.
  by rewrite Hfile, Hkey.
Qed.

Lemma get_loader_no_directory {Image} (w : cv2.World Image)
    (config_path video_identifier : string) (store : gmap string Config)
    (config : Config) :
  cv2.w_configs w !! config_path = Some store →
  store !! video_identifier = Some config →
  cv2.w_dirs w !! image_dataset config = None →
  get_loader config_path video_identifier w
  = Raise (if cv2.is_file w (image_dataset config)
           then NotADirectoryError (image_dataset config)
           else FileNotFoundError (image_dataset config)).
Proof.
  intros Hfile Hkey Hdir. unfold get_loader.
  bind_by ltac:(unfold load_config; by rewrite Hfile, Hkey).
  unfold mbind, M_bind, os.scandir, os.listdir. rewrite Hdir.
  by destruct (cv2.is_file w (image_dataset config)).
Qed.

(** X6: [get_loader] raises [FileNotFoundError] when nothing has the
    name of the configuration file, [KeyError] for a video identifier the
    file does not hold, [FileNotFoundError] when nothing has the name of
    the configured image directory and [NotADirectoryError] when that
    name is a regular file (the video itself, say); with the file, the
    record and the directory there it returns a loader. *)
Theorem get_loader_errors {Image} (w : cv2.World Image)
    (config_path video_identifier : string) :
  (absent w config_path →
   get_loader config_path video_identifier w
   = Raise (FileNotFoundError config_path))
  ∧ (∀ store,
       cv2.w_configs w !! config_path = Some store →
       store !! video_identifier = None →
       get_loader config_path video_identifier w
       = Raise (KeyError video_identifier))
  ∧ (∀ store config,
       cv2.w_configs w !! config_path = Some store →
       store !! video_identifier = Some config →
       absent w (image_dataset config) →
       get_loader config_path video_identifier w
       = Raise (FileNotFoundError (image_dataset config)))
  ∧ (∀ store config,
       cv2.w_configs w !! config_path = Some store →
       store !! video_identifier = Some config →
       cv2.w_dirs w !! image_dataset config = None →
       cv2.is_file w (image_dataset config) = true →
       get_loader config_path video_identifier w
       = Raise (NotADirectoryError (image_dataset config)))
  ∧ (∀ store config entries,
       cv2.w_configs w !! config_path = Some store →
       store !! video_identifier = Some config →
       cv2.w_dirs w !! image_dataset config = Some entries →
       ∃ loader w', get_loader config_path video_identifier w = Ok (loader, w')).
Proof.
  split_and!.
  - intros Habs. rewrite get_loader_no_file by by apply absent_no_config.
    unfold absent in Habs. by rewrite Habs.
  - apply get_loader_no_key.
  - intros store config Hfile Hkey Habs.
    destruct (absent_no_directory _ _ Habs) as [Hdir Hnofile].
    rewrite (get_loader_no_directory _ _ _ _ _ Hfile Hkey Hdir).
    by rewrite Hnofile.
  - intros store config Hfile Hkey Hdir Hisfile.
    rewrite (get_loader_no_directory _ _ _ _ _ Hfile Hkey Hdir).
    by rewrite Hisfile.
  - intros store config entries Hfile Hkey Hdir.
    rewrite (get_loader_unfold _ _ _ _ _ _ Hfile Hkey Hdir).
    destruct entries as [|entry entries]; cbn [any].
    + destruct (init_handles config w) as (loader & w' & Hinit & _).
      bind_by ltac:(exact Hinit). by eexists _, _.
    + bind_by ltac:(by eapply image_loader_init). by eexists _, _.
Qed.

Lemma get_loader_errors_witness :
  get_loader "absent.json" "v1" (example_world 0 4 [10%nat] [] ∅)
  = Raise (FileNotFoundError "absent.json")
  ∧ get_loader "station.json" "v2" (example_world 0 4 [10%nat] [] ∅)
    = Raise (KeyError "v2")
  ∧ get_loader "station.json" "v1" example_world_no_directory
    = Raise (FileNotFoundError "frames")
  ∧ get_loader "station.json" "v1" example_world_dataset_is_video
    = Raise (NotADirectoryError "river.mp4")
  ∧ ∃ loader w',
      get_loader "station.json" "v1" (example_world 0 4 [10%nat] [] ∅)
      = Ok (loader, w').
Proof.
  split_and!.
  - apply (get_loader_errors (example_world 0 4 [10%nat] [] ∅)
             "absent.json" "v1"). reflexivity.
  - apply (get_loader_errors (example_world 0 4 [10%nat] [] ∅)
             "station.json" "v2") with (store := {[ "v1" := example_config 0 4 ]});
      reflexivity.
  - apply (get_loader_errors example_world_no_directory "station.json" "v1")
      with (store := {[ "v1" := example_config 0 4 ]})
           (config := example_config 0 4); reflexivity.
  - apply (get_loader_errors example_world_dataset_is_video
             "station.json" "v1")
      with (store := {[ "v1" := example_config_dataset_is_video ]})
           (config := example_config_dataset_is_video); reflexivity.
  - apply (get_loader_errors (example_world 0 4 [10%nat] [] ∅)
             "station.json" "v1")
      with (store := {[ "v1" := example_config 0 4 ]})
           (config := example_config 0 4) (entries := []); reflexivity.
Defined.

(** X7: an ImageLoader handed back by [get_loader] has something to
    read ([has_images()] is true, the index is 0) and was built without
    touching the world, no capture opened; a VideoLoader is handed back
    only over an existing, empty image directory, and holds the first of
    the two captures it opened. *)
Theorem get_loader_result {Image} (w w' : cv2.World Image)
    (config_path video_identifier : string) (loader : AnyLoader Image) :
  get_loader config_path video_identifier w = Ok (loader, w') →
  match loader with
  | of_ImageLoader il =>
      w' = w ∧ ImageLoader.has_images il = true ∧ ImageLoader._index il = 0
  | of_VideoLoader vl =>
      (∃ store config,
         cv2.w_configs w !! config_path = Some store
         ∧ store !! video_identifier = Some config
         ∧ cv2.w_dirs w !! image_dataset config = Some [])
      ∧ VideoLoader._cap vl = length (cv2.w_caps w)
      ∧ length (cv2.w_caps w') = (length (cv2.w_caps w) + 2)%nat
  end.
Proof.
  intros Hget.
  destruct (cv2.w_configs w !! config_path) as [store|] eqn:Hfile;
    [| rewrite get_loader_no_file in Hget by done; discriminate Hget].
  destruct (store !! video_identifier) as [config|] eqn:Hkey;
    [| rewrite (get_loader_no_key _ _ _ store) in Hget by done; discriminate].
  destruct (cv2.w_dirs w !! image_dataset config) as [entries|] eqn:Hdir;
    [| rewrite (get_loader_no_directory _ _ _ store config) in Hget by done;
       discriminate Hget].
  rewrite (get_loader_unfold _ _ _ _ _ _ Hfile Hkey Hdir) in Hget.
  destruct entries as [|entry entries]; cbn [any] in Hget.
  - destruct (init_handles config w)
      as (vl & w1 & Hinit & Hcap & _ & Hlen & _).
    rewrite (bind_ok _ _ _ _ _ Hinit) in Hget. injection Hget as <- <-.
    split_and!; [by exists store, config | done | done].
  - rewrite (bind_ok _ _ _ _ _ (image_loader_init _ _ _ Hdir)) in Hget.
    injection Hget as <- <-. split_and!; [done | | done].
    unfold ImageLoader.has_images. apply bool_decide_true.
    simpl ImageLoader._index. simpl ImageLoader._image_number. lia.
Qed.

Lemma get_loader_result_witness :
  get_loader "station.json" "v1"
    (example_world 0 4 [10%nat] ["img_0001.jpg"; "img_0002.jpg"] ∅)
  = Ok (of_ImageLoader (example_image_loader 0 4),
        example_world 0 4 [10%nat] ["img_0001.jpg"; "img_0002.jpg"] ∅)
  ∧ ImageLoader.has_images (example_image_loader 0 4) = true.
Proof.
  assert (get_loader "station.json" "v1"
            (example_world 0 4 [10%nat] ["img_0001.jpg"; "img_0002.jpg"] ∅)
          = Ok (of_ImageLoader (example_image_loader 0 4),
                example_world 0 4 [10%nat] ["img_0001.jpg"; "img_0002.jpg"] ∅))
    as Hget by (vm_compute; reflexivity).
  split; [exact Hget |].
  apply (get_loader_result _ _ _ _ _ Hget).
Defined.

(** ** VideoLoader under any sequence of calls *)

(** X8: whatever sequence of [has_images()], [read()] and [end()] is
    called on a VideoLoader, nothing raises and the index goes up by
    exactly the number of [read()] calls, whether or not they obtained a
    frame. *)
Theorem video_index_counts_reads {Image} (cs : list Call)
    (self : @VideoLoader.t Image) (w : cv2.World Image) :
  ∃ self' w',
    calls cs self w = Ok (self', w')
    ∧ VideoLoader._index self'
      = VideoLoader._index self + Z.of_nat (count_reads cs).
Proof.
  revert self w. induction cs as [|c cs IH]; intros self w.
  - exists self, w. change (count_reads []) with 0%nat.
    split; [done | lia].
  - rewrite count_reads_cons. simpl calls. destruct c; unfold call.
    + destruct (has_images_total self w) as (more & self1 & w1 & Hrun & _ & Hidx).
      destruct (IH self1 w1) as (self' & w' & Hcalls & Hidx').
      exists self', w'. change (has_images self) with (VideoLoader.has_images self).
      bind_by ltac:(bind_by ltac:(exact Hrun); reflexivity).
      split; [done | simpl; lia].
    + destruct (read_total self w) as (image & self1 & w1 & Hrun & _ & Hidx & _).
      destruct (IH self1 w1) as (self' & w' & Hcalls & Hidx').
      exists self', w'. change (read self) with (VideoLoader.read self).
      bind_by ltac:(bind_by ltac:(exact Hrun); reflexivity).
      split; [done | simpl; lia].
    + destruct (end_total self w) as (w1 & Hrun & _).
      destruct (IH self w1) as (self' & w' & Hcalls & Hidx').
      exists self', w'. change (end_ self) with (VideoLoader.end_ self).
      bind_by ltac:(bind_by ltac:(exact Hrun); reflexivity).
      split; [done | simpl; lia].
Qed.

Lemma decode_stream {Image} (c : cv2.Capture Image) :
  ∃ k : nat, (k ≤ 1)%nat
             ∧ cv2.cap_stream (cv2.decode c).2 = drop k (cv2.cap_stream c).
Proof.
  unfold cv2.decode. destruct (cv2.cap_opened c), (cv2.cap_stream c) as [|f rest].
  - exists 0%nat. split; [lia | done].
  - exists 1%nat. split; [lia | done].
  - exists 0%nat. split; [lia | done].
  - exists 0%nat. split; [lia | done].
Qed.

Lemma remaining_updated {Image} (w : cv2.World Image) h c c' :
  cv2.w_caps w !! h = Some c →
  remaining (cv2.set_caps (<[h := c']> (cv2.w_caps w)) w) h = cv2.cap_stream c'.
Proof.
  intros Hc. unfold remaining. by rewrite (lookup_updated _ _ _ _ Hc).
Qed.

(** One call moves the stream of the loader's capture forward by at most
    one frame. *)
Lemma call_remaining {Image} (c : Call) (self : @VideoLoader.t Image)
    (w : cv2.World Image) :
  ∃ self' w' (k : nat),
    call c self w = Ok (self', w')
    ∧ VideoLoader._cap self' = VideoLoader._cap self
    ∧ (k ≤ 1)%nat
    ∧ remaining w' (VideoLoader._cap self)
      = drop k (remaining w (VideoLoader._cap self)).
Proof.
  destruct (cv2.w_caps w !! VideoLoader._cap self) as [cap|] eqn:Hcap.
  - assert (remaining w (VideoLoader._cap self) = cv2.cap_stream cap) as Hrem
      by (unfold remaining; by rewrite Hcap).
    destruct (decode_stream cap) as (k & Hk & Hstream).
    destruct c; unfold call.
    + change (has_images self) with (VideoLoader.has_images self).
      destruct (cv2.cap_opened cap) eqn:Hopen.
      * eexists _, _, k.
        bind_by ltac:(rewrite (has_images_at _ _ _ Hcap), Hopen; reflexivity).
        split_and!; [done | done | done |].
        by rewrite (remaining_updated _ _ _ _ Hcap), Hrem.
      * eexists _, _, 0%nat.
        bind_by ltac:(rewrite (has_images_at _ _ _ Hcap), Hopen; reflexivity).
        split_and!; [done | done | lia | done].
    + change (read self) with (VideoLoader.read self).
      destruct (VideoLoader._image_read self) eqn:Hb.
      * eexists _, _, k.
        bind_by ltac:(apply (read_decoding_at _ _ _ Hb Hcap)).
        split_and!; [done | done | done |].
        by rewrite (remaining_updated _ _ _ _ Hcap), Hrem.
      * eexists _, _, 0%nat.
        bind_by ltac:(apply (read_buffered _ _ Hb)).
        split_and!; [done | done | lia | done].
    + change (end_ self) with (VideoLoader.end_ self).
      eexists _, _, 0%nat.
      bind_by ltac:(apply (end_at _ _ _ Hcap)).
      split_and!; [done | done | lia |].
      by rewrite (remaining_updated _ _ _ _ Hcap), Hrem.
  - destruct c; unfold call.
    + change (has_images self) with (VideoLoader.has_images self).
      eexists _, _, 0%nat.
      bind_by ltac:(apply (has_images_none _ _ Hcap)).
      split_and!; [done | done | lia | done].
    + change (read self) with (VideoLoader.read self).
      destruct (VideoLoader._image_read self) eqn:Hb.
      * eexists _, _, 0%nat.
        bind_by ltac:(apply (read_decoding_none _ _ Hb Hcap)).
        split_and!; [done | done | lia | done].
      * eexists _, _, 0%nat.
        bind_by ltac:(apply (read_buffered _ _ Hb)).
        split_and!; [done | done | lia | done].
    + change (end_ self) with (VideoLoader.end_ self).
      eexists _, _, 0%nat.
      bind_by ltac:(apply (end_none _ _ Hcap)).
      split_and!; [done | done | lia | done].
Qed.

(** X9: a VideoLoader is sequential only: after any sequence of calls the
    frames left in its capture are a suffix of those left before, shorter
    by at most one frame per call; no call rewinds the stream or puts a
    frame back. *)
Theorem video_stream_only_advances {Image} (cs : list Call)
    (self : @VideoLoader.t Image) (w : cv2.World Image) :
  ∃ self' w' (k : nat),
    calls cs self w = Ok (self', w')
    ∧ (k ≤ length cs)%nat
    ∧ remaining w' (VideoLoader._cap self)
      = drop k (remaining w (VideoLoader._cap self)).
Proof.
  revert self w. induction cs as [|c cs IH]; intros self w.
  - exists self, w, 0%nat. split_and!; [done | simpl; lia | done].
  - destruct (call_remaining c self w)
      as (self1 & w1 & k1 & Hcall & Hcap & Hk1 & Hrem1).
    destruct (IH self1 w1) as (self' & w' & k & Hcalls & Hk & Hrem).
    exists self', w', (k1 + k)%nat. simpl calls.
    bind_by ltac:(exact Hcall).
    split_and!; [done | simpl; lia |].
    rewrite Hcap in Hrem. rewrite Hrem, Hrem1. apply drop_drop.
Qed.

(** ** VideoLoader: iterating, probing twice, reading after [end()] *)

(** The loop [while has_images(): read()] on an opened capture. *)
Lemma read_loop_at_position {Image} (frames : list Image) count (fuel : nat) :
  ∀ p d (self : @VideoLoader.t Image) w,
    at_position frames count p d self w →
    (length frames - p < fuel)%nat →
    ∃ self' w',
      read_loop fuel self w = Ok (true, Some <$> drop p frames, self', w')
      ∧ at_position frames count (S (p + (length frames - p)))
          (S (d + (length frames - p))) self' w'
      ∧ VideoLoader._cap self' = VideoLoader._cap self
      ∧ VideoLoader._index self'
        = VideoLoader._index self + Z.of_nat (length frames - p).
Proof.
  induction fuel as [|fuel IH]; intros p d self w Hc Hfuel; [lia |].
  destruct (probe_read_at_position _ _ _ _ _ _ Hc)
    as (self1 & w1 & self2 & Hprobe & Hread & Hc2 & Hcap2 & Hidx2 & _).
  simpl read_loop. change (has_images self) with (VideoLoader.has_images self).
  bind_by ltac:(exact Hprobe).
  case_bool_decide as Hp.
  - destruct (IH (S p) (S d) self2 w1 Hc2 ltac:(lia))
      as (self' & w' & Hloop & Hc' & Hcap' & Hidx').
    exists self', w'. change (read self1) with (VideoLoader.read self1).
    bind_by ltac:(exact Hread). bind_by ltac:(exact Hloop).
    destruct (lookup_lt_is_Some_2 frames p Hp) as [f Hf].
    rewrite Hf, (drop_S _ _ _ Hf), fmap_cons.
    replace (S (p + (length frames - p)))
      with (S (S p + (length frames - S p))) by lia.
    replace (S (d + (length frames - p)))
      with (S (S d + (length frames - S p))) by lia.
    split_and!; [done | done | congruence | lia].
  - destruct (has_images_at_position _ _ _ _ _ _ Hc)
      as (self1' & w1' & Hprobe' & Hc1 & Hcap1 & Hidx1 & _).
    rewrite bool_decide_false in Hprobe' by done.
    rewrite Hprobe in Hprobe'. injection Hprobe' as <- <-.
    exists self1, w1. rewrite drop_ge by lia.
    replace (length frames - p)%nat with 0%nat by lia.
    rewrite !Nat.add_0_r, Z.add_0_r. by split_and!.
Qed.

(** X10: over a video that opens, the loop [while has_images(): read()]
    run on a freshly constructed VideoLoader returns every frame after
    the [offset + 1] skipped ones exactly once and in stream order, then
    leaves by its condition; it ends with the index equal to the number
    of frames of the video and costs one decoder invocation more than
    the frames it found, the failed probe at the end. *)
Theorem video_read_loop {Image} (config : Config) (w : cv2.World Image)
    (fuel : nat) :
  is_Some (cv2.w_videos w !! video_path config) →
  (length (stream_of w (video_path config)) < fuel)%nat →
  let frames := stream_of w (video_path config) in
  let N := Z.to_nat (image_number_offset config + 1) in
  ∃ self w1 self' w',
    VideoLoader.init config w = Ok (self, w1)
    ∧ read_loop fuel self w1 = Ok (true, Some <$> drop N frames, self', w')
    ∧ VideoLoader._index self' = Z.of_nat (length frames)
    ∧ decodes w' (VideoLoader._cap self) = S (N `max` length frames)
    ∧ remaining w' (VideoLoader._cap self) = [].
Proof.
  intros Hsome Hfuel frames N.
  destruct (init_cases config w)
    as (self & w1 & Hinit & _ & _ & Hidx & _ & Hstate).
  fold N in Hidx, Hstate. fold frames in Hidx, Hstate, Hfuel.
  clearbody frames N.
  destruct Hstate as [(_ & Hc & _) | (Hnone & _)];
    [| destruct Hsome as [vf Hvf]; congruence].
  destruct (read_loop_at_position _ _ fuel _ _ _ _ Hc ltac:(lia))
    as (self' & w' & Hloop & Hc' & Hcap' & Hidx').
  exists self, w1, self', w'.
  pose proof (at_position_decodes _ _ _ _ _ _ Hc') as Hd.
  pose proof (at_position_remaining _ _ _ _ _ _ Hc') as Hr.
  rewrite Hcap' in Hd, Hr.
  split_and!; [done | done | lia | lia |].
  rewrite Hr. apply drop_ge. lia.
Qed.

Lemma video_read_loop_witness :
  ∃ self w1 self' w',
    VideoLoader.init (example_config 1 4)
      (example_world 1 4 [10; 20; 30; 40; 50]%nat [] ∅) = Ok (self, w1)
    ∧ read_loop 9 self w1
      = Ok (true, [Some 30; Some 40; Some 50]%nat, self', w')
    ∧ VideoLoader._index self' = 5
    ∧ decodes w' (VideoLoader._cap self) = 6%nat
    ∧ remaining w' (VideoLoader._cap self) = [].
Proof.
  apply (video_read_loop (example_config 1 4)
           (example_world 1 4 [10; 20; 30; 40; 50]%nat [] ∅) 9).
  - eexists. reflexivity.
  - vm_compute. lia.
Defined.

(** [k] probes in a row on an opened capture. *)
Lemma probes_at_position {Image} (frames : list Image) count (k : nat) :
  ∀ p d (self : @VideoLoader.t Image) w,
    at_position frames count p d self w →
    ∃ self' w',
      calls (replicate k HasImages) self w = Ok (self', w')
      ∧ at_position frames count (p + k) (d + k) self' w'
      ∧ VideoLoader._cap self' = VideoLoader._cap self
      ∧ VideoLoader._index self' = VideoLoader._index self
      ∧ ((1 ≤ k)%nat →
         VideoLoader._image self' = frames !! (p + k - 1)%nat
         ∧ VideoLoader._image_read self' = false).
Proof.
  induction k as [|k IH]; intros p d self w Hc.
  - exists self, w. rewrite !Nat.add_0_r. split_and!; [done | done | done | done | lia].
  - destruct (has_images_at_position _ _ _ _ _ _ Hc)
      as (self1 & w1 & Hprobe & Hc1 & Hcap1 & Hidx1 & Himg1 & Hb1).
    destruct (IH (S p) (S d) self1 w1 Hc1)
      as (self' & w' & Hcalls & Hc' & Hcap' & Hidx' & Hlast).
    exists self', w'.
    change (calls (replicate (S k) HasImages) self w)
      with ((call HasImages self ≫= calls (replicate k HasImages)) w).
    unfold call. change (has_images self) with (VideoLoader.has_images self).
    bind_by ltac:(bind_by ltac:(exact Hprobe); reflexivity).
    replace (p + S k)%nat with (S p + k)%nat by lia.
    replace (d + S k)%nat with (S d + k)%nat by lia.
    split_and!; [done | done | congruence | congruence |].
    intros _. destruct k as [|k].
    + simpl in Hcalls. injection Hcalls as <- <-.
      replace (S p + 0 - 1)%nat with p by lia. done.
    + replace (S p + S k - 1)%nat with (S p + S k - 1)%nat by lia.
      apply Hlast. lia.
Qed.

(** X11: [has_images()] called [k >= 1] times in a row without a
    [read()] decodes [k] frames and keeps only the last: the [read()]
    that follows returns the frame at the last probed position without
    decoding, and the [k - 1] frames probed before it are never
    returned. *)
Theorem repeated_probes_discard {Image} (frames : list Image) count
    (p d k : nat) (self : @VideoLoader.t Image) (w : cv2.World Image) :
  at_position frames count p d self w →
  (1 ≤ k)%nat →
  ∃ self1 w1 self2,
    calls (replicate k HasImages) self w = Ok (self1, w1)
    ∧ VideoLoader.read self1 w1 = Ok (frames !! (p + k - 1)%nat, self2, w1)
    ∧ decodes w1 (VideoLoader._cap self) = (d + k)%nat
    ∧ remaining w1 (VideoLoader._cap self) = drop (p + k) frames
    ∧ VideoLoader._index self2 = VideoLoader._index self + 1.
Proof.
  intros Hc Hk.
  destruct (probes_at_position _ _ k _ _ _ _ Hc)
    as (self1 & w1 & Hcalls & Hc1 & Hcap1 & Hidx1 & Hlast).
  destruct (Hlast Hk) as (Himg & Hb).
  destruct (read_buffered_at_position _ _ _ _ _ _ Hc1 Hb)
    as (self2 & Hread & _ & _ & Hidx2 & _).
  exists self1, w1, self2. rewrite Himg in Hread.
  pose proof (at_position_decodes _ _ _ _ _ _ Hc1) as Hd.
  pose proof (at_position_remaining _ _ _ _ _ _ Hc1) as Hr.
  rewrite Hcap1 in Hd, Hr.
  split_and!; [done | done | done | done | lia].
Qed.

Lemma repeated_probes_discard_witness :
  ∃ self1 w1 self2,
    calls [HasImages; HasImages] example_video_loader example_capture_world
    = Ok (self1, w1)
    ∧ VideoLoader.read self1 w1 = Ok (Some 20%nat, self2, w1)
    ∧ decodes w1 0 = 2%nat
    ∧ remaining w1 0 = [30%nat]
    ∧ VideoLoader._index self2 = 1.
Proof.
  apply (repeated_probes_discard [10; 20; 30]%nat 3 0 0 2
           example_video_loader example_capture_world).
  - reflexivity.
  - lia.
Defined.

(** *** A capture that is not opened *)

Section ClosedCapture.
Context {Image : Type}.
Implicit Types (self : @VideoLoader.t Image) (w : cv2.World Image).

Lemma has_images_closed left self w :
  closed left self w → VideoLoader.has_images self w = Ok (false, self, w).
Proof.
  intros (c & Hc & Hopen & _). by rewrite (has_images_at _ _ _ Hc), Hopen.
Qed.

Lemma read_closed left self w :
  closed left self w →
  ∃ self' w',
    VideoLoader.read self w
    = Ok (if VideoLoader._image_read self then None else VideoLoader._image self,
          self', w')
    ∧ closed left self' w'
    ∧ VideoLoader._cap self' = VideoLoader._cap self
    ∧ VideoLoader._image_read self' = true.
Proof.
  intros (c & Hc & Hopen & Hleft).
  destruct (VideoLoader._image_read self) eqn:Hb.
  - rewrite (read_decoding_at _ _ _ Hb Hc). unfold cv2.decode. rewrite Hopen.
    simpl. eexists _, _. split; [reflexivity |].
    split; [| done]. eexists. split; [by eapply lookup_updated |]. done.
  - rewrite (read_buffered _ _ Hb). eexists _, _. split; [reflexivity |].
    split; [| done]. by exists c.
Qed.

Lemma end_closes self w c :
  cv2.w_caps w !! VideoLoader._cap self = Some c →
  ∃ w', VideoLoader.end_ self w = Ok ((), self, w')
        ∧ closed (cv2.cap_stream c) self w'.
Proof.
  intros Hc. rewrite (end_at _ _ _ Hc). eexists. split; [reflexivity |].
  eexists. split; [by eapply lookup_updated |]. done.
Qed.

Lemma calls_closed left (cs : list Call) : ∀ self w,
  closed left self w →
  ∃ self' w',
    calls cs self w = Ok (self', w')
    ∧ closed left self' w'
    ∧ VideoLoader._cap self' = VideoLoader._cap self.
Proof.
  induction cs as [|c cs IH]; intros self w Hclosed.
  - by exists self, w.
  - assert (∃ self1 w1, call c self w = Ok (self1, w1) ∧ closed left self1 w1
                        ∧ VideoLoader._cap self1 = VideoLoader._cap self)
      as (self1 & w1 & Hcall & Hclosed1 & Hcap1).
    { destruct c; unfold call.
      - exists self, w. change (has_images self) with (VideoLoader.has_images self).
        by bind_by ltac:(by eapply has_images_closed).
      - destruct (read_closed _ _ _ Hclosed) as (self1 & w1 & Hrun & Hcl & Hcap & _).
        exists self1, w1. change (read self) with (VideoLoader.read self).
        by bind_by ltac:(exact Hrun).
      - destruct Hclosed as (c & Hc & Hopen & Hleft).
        destruct (end_closes _ _ _ Hc) as (w1 & Hrun & Hcl).
        exists self, w1. change (end_ self) with (VideoLoader.end_ self).
        bind_by ltac:(exact Hrun). rewrite Hleft in Hcl. done. }
    destruct (IH self1 w1 Hclosed1) as (self' & w' & Hcalls & Hclosed' & Hcap').
    exists self', w'. simpl calls. bind_by ltac:(exact Hcall).
    split_and!; [done | done | congruence].
Qed.

Lemma reads_closed left (n : nat) : ∀ self w,
  closed left self w →
  VideoLoader._image_read self = true →
  ∃ self' w',
    reads n self w = Ok (replicate n None, self', w')
    ∧ closed left self' w'
    ∧ VideoLoader._cap self' = VideoLoader._cap self.
Proof.
  induction n as [|n IH]; intros self w Hclosed Hb.
  - by exists self, w.
  - destruct (read_closed _ _ _ Hclosed) as (self1 & w1 & Hread & Hcl1 & Hcap1 & Hb1).
    rewrite Hb in Hread.
    destruct (IH self1 w1 Hcl1 Hb1) as (self' & w' & Hreads & Hcl' & Hcap').
    exists self', w'. simpl reads. change (read self) with (VideoLoader.read self).
    bind_by ltac:(exact Hread). bind_by ltac:(exact Hreads).
    split_and!; [done | done | congruence].
Qed.

Lemma closed_remaining left self w :
  closed left self w → remaining w (VideoLoader._cap self) = left.
Proof. intros (c & Hc & _ & Hleft). unfold remaining. by rewrite Hc. Qed.

End ClosedCapture.

(** X12: once [end()] has released the capture, whatever calls follow,
    [has_images()] answers false and changes nothing, at most the first
    [read()] still returns a value buffered before the release and every
    later one returns [None]; no frame is consumed any more. *)
Theorem reads_after_end {Image} (self : @VideoLoader.t Image)
    (w : cv2.World Image) (cs : list Call) (n : nat) :
  is_Some (cv2.w_caps w !! VideoLoader._cap self) →
  ∃ w1 self2 w2 first self3 w3,
    VideoLoader.end_ self w = Ok ((), self, w1)
    ∧ calls cs self w1 = Ok (self2, w2)
    ∧ VideoLoader.has_images self2 w2 = Ok (false, self2, w2)
    ∧ reads (S n) self2 w2 = Ok (first :: replicate n None, self3, w3)
    ∧ remaining w3 (VideoLoader._cap self) = remaining w (VideoLoader._cap self).
Proof.
  intros [c Hc].
  destruct (end_closes _ _ _ Hc) as (w1 & Hend & Hcl1).
  destruct (calls_closed _ cs _ _ Hcl1) as (self2 & w2 & Hcalls & Hcl2 & Hcap2).
  destruct (read_closed _ _ _ Hcl2) as (self2' & w2' & Hread & Hcl2' & Hcap2' & Hb).
  destruct (reads_closed _ n _ _ Hcl2' Hb) as (self3 & w3 & Hreads & Hcl3 & Hcap3).
  eexists w1, self2, w2, _, self3, w3.
  split_and!; [done | done | by eapply has_images_closed | |].
  - simpl reads. change (read self2) with (VideoLoader.read self2).
    bind_by ltac:(exact Hread). bind_by ltac:(exact Hreads). reflexivity.
  - pose proof (closed_remaining _ _ _ Hcl3) as Hrem.
    rewrite Hcap3, Hcap2', Hcap2 in Hrem. rewrite Hrem.
    unfold remaining. by rewrite Hc.
Qed.

Lemma reads_after_end_witness :
  ∃ w1 self2 w2 first self3 w3,
    VideoLoader.end_ example_video_loader example_capture_world
    = Ok ((), example_video_loader, w1)
    ∧ calls [Read; HasImages] example_video_loader w1 = Ok (self2, w2)
    ∧ VideoLoader.has_images self2 w2 = Ok (false, self2, w2)
    ∧ reads 3 self2 w2 = Ok (first :: replicate 2 None, self3, w3)
    ∧ remaining w3 (VideoLoader._cap example_video_loader)
      = remaining example_capture_world (VideoLoader._cap example_video_loader).
Proof.
  apply (reads_after_end example_video_loader example_capture_world
           [Read; HasImages] 2).
  eexists. reflexivity.
Defined.

(** ** VideoLoader: construction at the edges *)

(** X13: constructing a VideoLoader over a video that cannot be opened
    raises nothing: the loader has index 0, no decoder invocation was
    made, [has_images()] answers false and changes nothing, and every
    [read()] returns [None]. *)
Theorem init_unopenable {Image} (config : Config) (w : cv2.World Image)
    (n : nat) :
  cv2.w_videos w !! video_path config = None →
  ∃ self w1 self' w',
    VideoLoader.init config w = Ok (self, w1)
    ∧ VideoLoader._index self = 0
    ∧ decodes w1 (VideoLoader._cap self) = 0%nat
    ∧ VideoLoader.has_images self w1 = Ok (false, self, w1)
    ∧ reads n self w1 = Ok (replicate n None, self', w').
Proof.
  intros Hnone.
  destruct (init_cases config w)
    as (self & w1 & Hinit & _ & _ & _ & _ & Hstate).
  destruct Hstate as [([vf Hvf] & _) | (_ & Hno & -> & ->)]; [congruence |].
  destruct (reads_no_frame n _ _ Hno) as (self' & w' & Hreads).
  assert (cv2.w_caps (cv2.destroyed_at (S (length (cv2.w_caps w)))
                        (opened_twice config w))
            !! VideoLoader._cap (fresh config w)
          = Some (cv2.open_capture (video_path config) w)) as Hfirst.
  { rewrite destroyed_at_lookup_ne by (simpl; lia).
    apply lookup_opened_first. }
  assert (cv2.open_capture (video_path config) w
          = {| cv2.cap_opened := false; cv2.cap_stream := [];
               cv2.cap_frame_count := cv2.w_unopened_frame_count w;
               cv2.cap_reads := 0; cv2.cap_releases := 0;
               cv2.cap_destroyed := false |}) as Hcap
    by (unfold cv2.open_capture; by rewrite Hnone).
  rewrite Hcap in Hfirst.
  eexists (fresh config w), _, self', w'.
  split_and!; [exact Hinit | done | | | exact Hreads].
  - unfold decodes. by rewrite Hfirst.
  - by rewrite (has_images_at _ _ _ Hfirst).
Qed.

Lemma init_unopenable_witness :
  ∃ self w1 self' w',
    VideoLoader.init (example_config 2 4) example_world_no_directory
    = Ok (self, w1)
    ∧ VideoLoader._index self = 0
    ∧ decodes w1 (VideoLoader._cap self) = 0%nat
    ∧ VideoLoader.has_images self w1 = Ok (false, self, w1)
    ∧ reads 2 self w1 = Ok (replicate 2 None, self', w').
Proof.
  apply (init_unopenable (example_config 2 4) example_world_no_directory 2).
  reflexivity.
Defined.

(** X14: with a configured offset of -1 or less the constructor skips
    nothing: over a video that opens the index is 0 and no frame is
    decoded; [has_images()] then [read()] delivers the stream from its
    first frame, while [read()] alone first returns the initial [None]
    without decoding and only then delivers the stream from its first
    frame. *)
Theorem init_negative_offset {Image} (config : Config) (w : cv2.World Image)
    (n : nat) :
  image_number_offset config ≤ -1 →
  is_Some (cv2.w_videos w !! video_path config) →
  let frames := stream_of w (video_path config) in
  ∃ self w1 answers selfA wA selfB wB,
    VideoLoader.init config w = Ok (self, w1)
    ∧ VideoLoader._index self = 0
    ∧ decodes w1 (VideoLoader._cap self) = 0%nat
    ∧ remaining w1 (VideoLoader._cap self) = frames
    ∧ probed_reads n self w1 = Ok (answers, frames_from frames 0 n, selfA, wA)
    ∧ reads (S n) self w1 = Ok (None :: frames_from frames 0 n, selfB, wB)
    ∧ decodes wB (VideoLoader._cap self) = n.
Proof.
  intros Hoffset Hsome frames.
  destruct (init_cases config w)
    as (self & w1 & Hinit & _ & _ & Hidx & Hzero & Hstate).
  replace (Z.to_nat (image_number_offset config + 1)) with 0%nat in * by lia.
  fold frames in Hidx, Hstate.
  destruct (Hzero eq_refl) as (Hb & Himg).
  destruct Hstate as [(_ & Hc & _) | (Hnone & _)];
    [| destruct Hsome as [vf Hvf]; congruence].
  destruct (probed_reads_at_position _ _ n _ _ _ _ Hc)
    as (selfA & wA & HA & _).
  destruct (read_buffered_at_position _ _ _ _ _ _ Hc Hb)
    as (self1 & Hread & Hc1 & Hcap1 & _ & Hb1).
  destruct (reads_at_position _ _ n _ _ _ _ Hc1 Hb1)
    as (selfB & wB & HB & HcB & HcapB & _).
  eexists self, w1, _, selfA, wA, selfB, wB.
  pose proof (at_position_decodes _ _ _ _ _ _ HcB) as HdB.
  rewrite HcapB, Hcap1 in HdB.
  split_and!; [done | by rewrite Hidx | | | exact HA | | done].
  - by eapply at_position_decodes.
  - by rewrite (at_position_remaining _ _ _ _ _ _ Hc).
  - simpl reads. change (read self) with (VideoLoader.read self).
    bind_by ltac:(exact Hread). bind_by ltac:(exact HB).
    by rewrite Himg.
Qed.

Lemma init_negative_offset_witness :
  ∃ self w1 answers selfA wA selfB wB,
    VideoLoader.init (example_config (-1) 4)
      (example_world (-1) 4 [10; 20; 30]%nat [] ∅) = Ok (self, w1)
    ∧ VideoLoader._index self = 0
    ∧ decodes w1 (VideoLoader._cap self) = 0%nat
    ∧ remaining w1 (VideoLoader._cap self) = [10; 20; 30]%nat
    ∧ probed_reads 2 self w1
      = Ok (answers, [Some 10; Some 20]%nat, selfA, wA)
    ∧ reads 3 self w1 = Ok ([None; Some 10; Some 20]%nat, selfB, wB)
    ∧ decodes wB (VideoLoader._cap self) = 2%nat.
Proof.
  apply (init_negative_offset (example_config (-1) 4)
           (example_world (-1) 4 [10; 20; 30]%nat [] ∅) 2).
  - simpl. lia.
  - eexists. reflexivity.
Defined.
